(** * IBTK::FixedSizedStream: pack / unpack over a fixed-size byte buffer

    Shallow embedding of [ibtk/include/ibtk/private/FixedSizedStream-inl.h].

    Conventions of the embedding.
    - A C++ [int] is a [Z] within [CInt.INT_MIN, CInt.INT_MAX].  The one
      signed addition of the file, [d_buffer_index += bytes], overflows
      when its exact sum is not an [int]: C++ leaves that undefined, and
      the outcome [Undefined (SignedOverflow _)] stops there.  The
      conversions through [unsigned int] that [__pack] / [__unpack]
      perform are written out in [CInt].
    - [d_buffer] is a [list byte]; a pointer into it is the offset from
      [&d_buffer[0]].
    - [TBOX_ERROR] aborts the program: the outcome [BufferOverrun] keeps
      the stream and the caller's array as they are at that moment.
    - Reading or writing outside [d_buffer], or outside the caller's
      array, is undefined behaviour in C++: the outcome [Undefined]
      records which access left its array and stops there. *)

From Stdlib Require Import ZArith Lia Strings.Byte Sorting.Sorted.
From stdpp Require Import base list numbers.

Local Open Scope Z_scope.

(** ** Machine integers *)

Module CInt.

Definition INT_MAX : Z := 2147483647.
Definition INT_MIN : Z := -2147483648.
Definition UINT_MODULUS : Z := 4294967296.

(** [x] is a value of type [int]. *)
Definition in_range (x : Z) : Prop := INT_MIN <= x <= INT_MAX.

(** Conversion [int -> unsigned int] (argument of [__pack]). *)
Definition to_unsigned (x : Z) : Z := x mod UINT_MODULUS.

(** Conversion [unsigned int -> int] (argument of
    [getPointerAndAdvanceCursor]). *)
Definition of_unsigned (u : Z) : Z :=
  if u <? INT_MAX + 1 then u else u - UINT_MODULUS.

(** [x] is a value of type [int], as a test. *)
Definition is_int (x : Z) : bool := (INT_MIN <=? x) && (x <=? INT_MAX).

(** The [int] a two's-complement build computes where the exact result
    is [x]. *)
Definition wrap (x : Z) : Z := of_unsigned (to_unsigned x).

End CInt.

(** ** SAMRAI::tbox::AbstractStream sizes *)

(** Modelled from the spec: the [sizeofX(n)] helpers of
    [SAMRAI::tbox::AbstractStream] are not among the sources; the table of
    packed widths gives 1 byte for a boolean and a character, 4 for an
    integer and a float, 8 for a double and 16 for a double complex. *)
Definition sizeofBool (n : Z) : Z := n.
Definition sizeofChar (n : Z) : Z := n.
Definition sizeofDoubleComplex (n : Z) : Z := 16 * n.
Definition sizeofDouble (n : Z) : Z := 8 * n.
Definition sizeofFloat (n : Z) : Z := 4 * n.
Definition sizeofInt (n : Z) : Z := 4 * n.

(** ** The stream *)

Record FixedSizedStream : Type := mkStream {
  d_buffer_size : Z;          (* capacity, fixed at construction *)
  d_current_size : Z;         (* high-water mark *)
  d_buffer_index : Z;         (* cursor *)
  d_buffer : list byte        (* std::vector<char> *)
}.

Definition with_buffer (s : FixedSizedStream) (buf : list byte) : FixedSizedStream :=
  mkStream (d_buffer_size s) (d_current_size s) (d_buffer_index s) buf.

(** Modelled from the spec: the constructors live in FixedSizedStream.cpp,
    which is not among the sources.  A stream is constructed with a fixed
    capacity, cursor 0 and high-water mark 0; the second form wraps the
    first [bytes] bytes of a caller's buffer.  A negative capacity
    constructs nothing. *)
Definition FixedSizedStream_new (bytes : Z) : option FixedSizedStream :=
  if bytes <? 0 then None
  else Some (mkStream bytes 0 0 (replicate (Z.to_nat bytes) x00)).

Definition FixedSizedStream_wrap (buffer : list byte) (bytes : Z) : option FixedSizedStream :=
  if (bytes <? 0) || (Z.of_nat (length buffer) <? bytes) then None
  else Some (mkStream bytes 0 0 (take (Z.to_nat bytes) buffer)).

Definition getBufferStart (s : FixedSizedStream) : list byte := d_buffer s.

Definition getCurrentSize (s : FixedSizedStream) : Z := d_current_size s.

Definition getCurrentIndex (s : FixedSizedStream) : Z := d_buffer_index s.

Definition setCurrentIndex (index : Z) (s : FixedSizedStream) : FixedSizedStream :=
  mkStream (d_buffer_size s) (d_current_size s) index (d_buffer s).

Definition resetIndex (s : FixedSizedStream) : FixedSizedStream :=
  setCurrentIndex 0 s.

(** ** Outcomes *)

Inductive fault : Type :=
| OutsideBuffer (ptr count : Z)   (* [count] bytes at offset [ptr] of d_buffer *)
| OutsideData (i : Z)             (* element / byte [i] of the caller's array *)
| SignedOverflow (sum : Z).       (* an [int] addition whose exact result is [sum] *)

(** Modelled from the spec: [TBOX_ERROR] is a SAMRAI macro, not among the
    sources; the overrun error it raises is fatal, nothing of the call
    runs after it.  [BufferOverrun a s] is that abort, with the caller's
    array [a] and the stream [s] as they are when it is raised. *)
Inductive outcome (A : Type) : Type :=
| Returned (a : A) (s : FixedSizedStream)
| BufferOverrun (a : A) (s : FixedSizedStream)
| Undefined (f : fault) (a : A) (s : FixedSizedStream).

Arguments Returned {A} a s.
Arguments BufferOverrun {A} a s.
Arguments Undefined {A} f a s.

Definition stream_of {A} (o : outcome A) : FixedSizedStream :=
  match o with
  | Returned _ s | BufferOverrun _ s | Undefined _ _ s => s
  end.

Definition value_of {A} (o : outcome A) : A :=
  match o with
  | Returned a _ | BufferOverrun a _ | Undefined _ a _ => a
  end.

Definition is_returned {A} (o : outcome A) : bool :=
  match o with Returned _ _ => true | _ => false end.

Definition is_overrun {A} (o : outcome A) : bool :=
  match o with BufferOverrun _ _ => true | _ => false end.

(** ** getPointerAndAdvanceCursor

    The pointer [&d_buffer[d_buffer_index]] is the offset [d_buffer_index];
    taking it touches no memory.  The capacity test is nested in the test
    against [d_current_size], after both assignments. *)

(** Every [int] the primitive reads is one: [bytes] and the three fields.
    This holds of every stream and byte count of the program; a record
    with a field outside the [int] range is no state of it. *)
Definition ints_typed (bytes : Z) (s : FixedSizedStream) : bool :=
  CInt.is_int bytes && CInt.is_int (d_buffer_size s)
  && CInt.is_int (d_current_size s) && CInt.is_int (d_buffer_index s).

(** [d_buffer_index += bytes] overflows: the operands are [int]s and
    their exact sum is not.  (On a record that is no state of the program
    the embedding keeps the exact sum.) *)
Definition advance_overflows (bytes : Z) (s : FixedSizedStream) : bool :=
  ints_typed bytes s && negb (CInt.is_int (d_buffer_index s + bytes)).

(** On overflow the outcome is [Undefined]; the stream it keeps is the
    one a two's-complement build has after the two assignments: the
    wrapped cursor, and the high-water mark raised to it if it was
    below. *)
Definition getPointerAndAdvanceCursor (bytes : Z) (s : FixedSizedStream) : outcome Z :=
  let ptr := d_buffer_index s in
  if advance_overflows bytes s then
    let index := CInt.wrap (d_buffer_index s + bytes) in
    Undefined (SignedOverflow (d_buffer_index s + bytes)) ptr
      (mkStream (d_buffer_size s) (Z.max (d_current_size s) index) index (d_buffer s))
  else
  let index := d_buffer_index s + bytes in
  if index >? d_current_size s then
    let s' := mkStream (d_buffer_size s) index index (d_buffer s) in
    if index >? d_buffer_size s then BufferOverrun ptr s' else Returned ptr s'
  else Returned ptr (mkStream (d_buffer_size s) (d_current_size s) index (d_buffer s)).

(** ** Raw memory *)

(** [count] bytes starting at offset [lo] lie inside an array of [len]
    bytes (an empty range touches nothing). *)
Definition range_inside (lo count : Z) (len : nat) : bool :=
  (count <=? 0) || ((0 <=? lo) && (lo + count <=? Z.of_nat len)).

(** [std::memcpy(dst + ptr, src, count)] on byte lists. *)
Definition memcpy (dst : list byte) (ptr : Z) (src : list byte) (count : Z) : list byte :=
  take (Z.to_nat ptr) dst ++ take (Z.to_nat count) src ++ drop (Z.to_nat (ptr + count)) dst.

(** The [count] bytes of [src] at offset [ptr]. *)
Definition slice (src : list byte) (ptr count : Z) : list byte :=
  take (Z.to_nat count) (drop (Z.to_nat ptr) src).

Definition __pack (m_data : list byte) (m_bytes : Z) (s : FixedSizedStream) : outcome (list byte) :=
  match getPointerAndAdvanceCursor (CInt.of_unsigned m_bytes) s with
  | Returned ptr s' =>
      if negb (range_inside ptr m_bytes (length (d_buffer s')))
      then Undefined (OutsideBuffer ptr m_bytes) m_data s'
      else if negb (range_inside 0 m_bytes (length m_data))
      then Undefined (OutsideData (Z.of_nat (length m_data))) m_data s'
      else Returned m_data (with_buffer s' (memcpy (d_buffer s') ptr m_data m_bytes))
  | BufferOverrun _ s' => BufferOverrun m_data s'
  | Undefined f _ s' => Undefined f m_data s'
  end.

Definition __unpack (m_data : list byte) (m_bytes : Z) (s : FixedSizedStream) : outcome (list byte) :=
  match getPointerAndAdvanceCursor (CInt.of_unsigned m_bytes) s with
  | Returned ptr s' =>
      if negb (range_inside ptr m_bytes (length (d_buffer s')))
      then Undefined (OutsideBuffer ptr m_bytes) m_data s'
      else if negb (range_inside 0 m_bytes (length m_data))
      then Undefined (OutsideData (Z.of_nat (length m_data))) m_data s'
      else Returned (memcpy m_data 0 (slice (d_buffer s') ptr m_bytes) m_bytes) s'
  | BufferOverrun _ s' => BufferOverrun m_data s'
  | Undefined f _ s' => Undefined f m_data s'
  end.

(** ** Array elements *)

(** [l[i]] for a C index: outside [0, length l) there is no element. *)
Definition read_at {A} (l : list A) (i : Z) : option A :=
  if i <? 0 then None else l !! Z.to_nat i.

(** [l[i] = x] for a C index. *)
Definition write_at {A} (l : list A) (i : Z) (x : A) : option (list A) :=
  if (0 <=? i) && (i <? Z.of_nat (length l)) then Some (<[Z.to_nat i := x]> l) else None.

(** ** Booleans: one byte each, converted element by element *)

Definition bool_to_char (b : bool) : byte := if b then x01 else x00.

Definition char_to_bool (c : byte) : bool := Byte.eqb c x01.

(** The loop [for (i = 0; i < n; i++) c_ptr[i] = (data[i] ? 1 : 0);]
    with [todo] iterations left. *)
Fixpoint pack_bool_loop (todo : nat) (i : Z) (data : list bool) (ptr : Z)
    (s : FixedSizedStream) : outcome (list bool) :=
  match todo with
  | O => Returned data s
  | S todo' =>
      match read_at data i with
      | None => Undefined (OutsideData i) data s
      | Some b =>
          match write_at (d_buffer s) (ptr + i) (bool_to_char b) with
          | None => Undefined (OutsideBuffer (ptr + i) 1) data s
          | Some buf => pack_bool_loop todo' (i + 1) data ptr (with_buffer s buf)
          end
      end
  end.

Definition pack_bool (data : list bool) (n : Z) (s : FixedSizedStream) : outcome (list bool) :=
  let bytes := sizeofBool n in
  match getPointerAndAdvanceCursor bytes s with
  | Returned ptr s' => pack_bool_loop (Z.to_nat n) 0 data ptr s'
  | BufferOverrun _ s' => BufferOverrun data s'
  | Undefined f _ s' => Undefined f data s'
  end.

(** The loop [for (i = 0; i < n; i++) data[i] = (c_ptr[i] == 1);]. *)
Fixpoint unpack_bool_loop (todo : nat) (i : Z) (data : list bool) (ptr : Z)
    (s : FixedSizedStream) : outcome (list bool) :=
  match todo with
  | O => Returned data s
  | S todo' =>
      match read_at (d_buffer s) (ptr + i) with
      | None => Undefined (OutsideBuffer (ptr + i) 1) data s
      | Some c =>
          match write_at data i (char_to_bool c) with
          | None => Undefined (OutsideData i) data s
          | Some data' => unpack_bool_loop todo' (i + 1) data' ptr s
          end
      end
  end.

Definition unpack_bool (data : list bool) (n : Z) (s : FixedSizedStream) : outcome (list bool) :=
  let bytes := sizeofBool n in
  match getPointerAndAdvanceCursor bytes s with
  | Returned ptr s' => unpack_bool_loop (Z.to_nat n) 0 data ptr s'
  | BufferOverrun _ s' => BufferOverrun data s'
  | Undefined f _ s' => Undefined f data s'
  end.

(** ** Raw-copied kinds

    The caller's array is its object representation, a [list byte]. *)

Definition pack_char (data : list byte) (n : Z) (s : FixedSizedStream) : outcome (list byte) :=
  let bytes := sizeofChar n in __pack data (CInt.to_unsigned bytes) s.

Definition unpack_char (data : list byte) (n : Z) (s : FixedSizedStream) : outcome (list byte) :=
  let bytes := sizeofChar n in __unpack data (CInt.to_unsigned bytes) s.

Definition pack_dcomplex (data : list byte) (n : Z) (s : FixedSizedStream) : outcome (list byte) :=
  let bytes := sizeofDoubleComplex n in __pack data (CInt.to_unsigned bytes) s.

Definition unpack_dcomplex (data : list byte) (n : Z) (s : FixedSizedStream) : outcome (list byte) :=
  let bytes := sizeofDoubleComplex n in __unpack data (CInt.to_unsigned bytes) s.

Definition pack_double (data : list byte) (n : Z) (s : FixedSizedStream) : outcome (list byte) :=
  let bytes := sizeofDouble n in __pack data (CInt.to_unsigned bytes) s.

Definition unpack_double (data : list byte) (n : Z) (s : FixedSizedStream) : outcome (list byte) :=
  let bytes := sizeofDouble n in __unpack data (CInt.to_unsigned bytes) s.

Definition pack_float (data : list byte) (n : Z) (s : FixedSizedStream) : outcome (list byte) :=
  let bytes := sizeofFloat n in __pack data (CInt.to_unsigned bytes) s.

Definition unpack_float (data : list byte) (n : Z) (s : FixedSizedStream) : outcome (list byte) :=
  let bytes := sizeofFloat n in __unpack data (CInt.to_unsigned bytes) s.

Definition pack_int (data : list byte) (n : Z) (s : FixedSizedStream) : outcome (list byte) :=
  let bytes := sizeofInt n in __pack data (CInt.to_unsigned bytes) s.

Definition unpack_int (data : list byte) (n : Z) (s : FixedSizedStream) : outcome (list byte) :=
  let bytes := sizeofInt n in __unpack data (CInt.to_unsigned bytes) s.

(** [operator<<] and [operator>>]: the one-element forms. *)
Definition operator_shl_bool (data : bool) (s : FixedSizedStream) := pack_bool [data] 1 s.
Definition operator_shr_bool (data : bool) (s : FixedSizedStream) := unpack_bool [data] 1 s.
Definition operator_shl_char (data : list byte) (s : FixedSizedStream) := pack_char data 1 s.
Definition operator_shr_char (data : list byte) (s : FixedSizedStream) := unpack_char data 1 s.
Definition operator_shl_dcomplex (data : list byte) (s : FixedSizedStream) := pack_dcomplex data 1 s.
Definition operator_shr_dcomplex (data : list byte) (s : FixedSizedStream) := unpack_dcomplex data 1 s.
Definition operator_shl_double (data : list byte) (s : FixedSizedStream) := pack_double data 1 s.
Definition operator_shr_double (data : list byte) (s : FixedSizedStream) := unpack_double data 1 s.
Definition operator_shl_float (data : list byte) (s : FixedSizedStream) := pack_float data 1 s.
Definition operator_shr_float (data : list byte) (s : FixedSizedStream) := unpack_float data 1 s.
Definition operator_shl_int (data : list byte) (s : FixedSizedStream) := pack_int data 1 s.
Definition operator_shr_int (data : list byte) (s : FixedSizedStream) := unpack_int data 1 s.

(** ** Calls, uniformly *)

Inductive raw_kind : Type := KChar | KDComplex | KDouble | KFloat | KInt.

Definition width (k : raw_kind) : Z :=
  match k with
  | KChar => sizeofChar 1
  | KDComplex => sizeofDoubleComplex 1
  | KDouble => sizeofDouble 1
  | KFloat => sizeofFloat 1
  | KInt => sizeofInt 1
  end.

Definition pack_raw (k : raw_kind) : list byte -> Z -> FixedSizedStream -> outcome (list byte) :=
  match k with
  | KChar => pack_char
  | KDComplex => pack_dcomplex
  | KDouble => pack_double
  | KFloat => pack_float
  | KInt => pack_int
  end.

Definition unpack_raw (k : raw_kind) : list byte -> Z -> FixedSizedStream -> outcome (list byte) :=
  match k with
  | KChar => unpack_char
  | KDComplex => unpack_dcomplex
  | KDouble => unpack_double
  | KFloat => unpack_float
  | KInt => unpack_int
  end.

(** The caller's array, before or after a call. *)
Inductive array : Type :=
| BoolArray (l : list bool)
| ByteArray (m : list byte).

Inductive call : Type :=
| PackBool (data : list bool) (n : Z)
| UnpackBool (data : list bool) (n : Z)
| PackRaw (k : raw_kind) (data : list byte) (n : Z)
| UnpackRaw (k : raw_kind) (data : list byte) (n : Z).

Definition map_outcome {A B} (f : A -> B) (o : outcome A) : outcome B :=
  match o with
  | Returned a s => Returned (f a) s
  | BufferOverrun a s => BufferOverrun (f a) s
  | Undefined e a s => Undefined e (f a) s
  end.

Definition exec_call (c : call) (s : FixedSizedStream) : outcome array :=
  match c with
  | PackBool data n => map_outcome BoolArray (pack_bool data n s)
  | UnpackBool data n => map_outcome BoolArray (unpack_bool data n s)
  | PackRaw k data n => map_outcome ByteArray (pack_raw k data n s)
  | UnpackRaw k data n => map_outcome ByteArray (unpack_raw k data n s)
  end.

(** The caller's array as passed to the call. *)
Definition argument (c : call) : array :=
  match c with
  | PackBool data _ | UnpackBool data _ => BoolArray data
  | PackRaw _ data _ | UnpackRaw _ data _ => ByteArray data
  end.

(** The byte count the call hands to [getPointerAndAdvanceCursor]. *)
Definition requested_bytes (c : call) : Z :=
  match c with
  | PackBool _ n | UnpackBool _ n => sizeofBool n
  | PackRaw k _ n | UnpackRaw k _ n => CInt.of_unsigned (CInt.to_unsigned (width k * n))
  end.

(** ** Object representations used in the scenarios

    The stream copies object representations verbatim, so nothing below
    enters the definitions above.  The scenarios fix the usual layout:
    little-endian, two's-complement [int], IEEE-754 binary64 [double]
    given by its 64-bit pattern. *)

Definition byte_of_Z (z : Z) : byte :=
  default x00 (Byte.of_N (Z.to_N (z mod 256))).

Definition Z_of_byte (b : byte) : Z := Z.of_N (Byte.to_N b).

Fixpoint le_bytes (w : nat) (z : Z) : list byte :=
  match w with
  | O => []
  | S w' => byte_of_Z z :: le_bytes w' (z / 256)
  end.

Fixpoint le_value (m : list byte) : Z :=
  match m with
  | [] => 0
  | b :: m' => Z_of_byte b + 256 * le_value m'
  end.

Definition int_repr (v : Z) : list byte := le_bytes 4 v.
Definition int_value (m : list byte) : Z := CInt.of_unsigned (le_value m).

Definition double_repr (bits : Z) : list byte := le_bytes 8 bits.
Definition double_bits (m : list byte) : Z := le_value m.

(** The binary64 nearest to 3.14: 0x40091EB851EB851F. *)
Definition double_3_14 : Z := 4614253070214989087.

(** ** Sequences of operations *)

Inductive op : Type :=
| Call (c : call)
| SetCurrentIndex (index : Z)
| ResetIndex.

Definition exec_op (o : op) (s : FixedSizedStream) : outcome (option array) :=
  match o with
  | Call c => map_outcome Some (exec_call c s)
  | SetCurrentIndex index => Returned None (setCurrentIndex index s)
  | ResetIndex => Returned None (resetIndex s)
  end.

(** Calls one after the other; the program goes on only after a call
    that returns.  The result lists the callers' arrays. *)
Fixpoint exec_calls (cs : list call) (s : FixedSizedStream) : outcome (list array) :=
  match cs with
  | [] => Returned [] s
  | c :: cs' =>
      match exec_call c s with
      | Returned a s' => map_outcome (cons a) (exec_calls cs' s')
      | BufferOverrun a s' => BufferOverrun [a] s'
      | Undefined f a s' => Undefined f [a] s'
      end
  end.

(** The stream after each operation of a run, in order. *)
Fixpoint history (ops : list op) (s : FixedSizedStream) : list FixedSizedStream :=
  match ops with
  | [] => []
  | o :: ops' =>
      let r := exec_op o s in
      stream_of r :: (if is_returned r then history ops' (stream_of r) else [])
  end.

(** The stream a run ends with. *)
Definition final (ops : list op) (s : FixedSizedStream) : FixedSizedStream :=
  List.last (history ops s) s.

(** The largest cursor value of a run, the starting cursor included. *)
Definition max_cursor (ops : list op) (s : FixedSizedStream) : Z :=
  foldr Z.max (d_buffer_index s) (d_buffer_index <$> history ops s).

(** Every [setCurrentIndex] of the run (that of [resetIndex] included) is
    given an index that is at most the high-water mark at that moment. *)
Fixpoint seeks_within_size (ops : list op) (s : FixedSizedStream) : bool :=
  match ops with
  | [] => true
  | o :: ops' =>
      match o with
      | Call _ => true
      | SetCurrentIndex index => index <=? d_current_size s
      | ResetIndex => 0 <=? d_current_size s
      end
      && (let r := exec_op o s in
          if is_returned r then seeks_within_size ops' (stream_of r) else true)
  end.

(** Streams a program gets from a constructor by packs and unpacks that
    return and by [resetIndex]. *)
Inductive reachable : FixedSizedStream -> Prop :=
| reachable_new bytes s :
    FixedSizedStream_new bytes = Some s -> reachable s
| reachable_wrap buffer bytes s :
    FixedSizedStream_wrap buffer bytes = Some s -> reachable s
| reachable_call c s a s' :
    reachable s -> exec_call c s = Returned a s' -> reachable s'
| reachable_reset s :
    reachable s -> reachable (resetIndex s).

(** ** Well-sized calls and buffers *)

(** [d_buffer] has [d_buffer_size] bytes and the size is an [int]. *)
Definition buffer_ok (s : FixedSizedStream) : Prop :=
  d_buffer_size s = Z.of_nat (length (d_buffer s)) /\ d_buffer_size s <= CInt.INT_MAX.

(** A pack call whose array has exactly the [n] elements it announces. *)
Definition pack_of (c : call) : Prop :=
  match c with
  | PackBool data n => n = Z.of_nat (length data)
  | PackRaw k data n => 0 <= n /\ Z.of_nat (length data) = width k * n
  | _ => False
  end.

(** [u] unpacks what [p] packs: same kind, same count, into an array of
    that many elements. *)
Definition mirrors (p u : call) : Prop :=
  match p, u with
  | PackBool _ n, UnpackBool out n' => n' = n /\ Z.of_nat (length out) = n
  | PackRaw k _ n, UnpackRaw k' out n' =>
      k' = k /\ n' = n /\ Z.of_nat (length out) = width k * n
  | _, _ => False
  end.

(** The bytes a pack call puts into the buffer. *)
Definition wire (c : call) : list byte :=
  match c with
  | PackBool data _ => bool_to_char <$> data
  | PackRaw _ data _ => data
  | _ => []
  end.

Definition wire_size (cs : list call) : Z :=
  Z.of_nat (length (concat (wire <$> cs))).

(** [s'] differs from [s] at most in the buffer contents. *)
Definition same_cursor (s s' : FixedSizedStream) : Prop :=
  d_buffer_size s' = d_buffer_size s /\
  d_current_size s' = d_current_size s /\
  d_buffer_index s' = d_buffer_index s.

(** The stream [getPointerAndAdvanceCursor(bytes)] leaves behind when
    the addition does not overflow. *)
Definition advanced (bytes : Z) (s : FixedSizedStream) : FixedSizedStream :=
  mkStream (d_buffer_size s)
           (Z.max (d_current_size s) (d_buffer_index s + bytes))
           (d_buffer_index s + bytes)
           (d_buffer s).

(** The distance the cursor has moved after [getPointerAndAdvanceCursor]:
    [bytes], or what the wrapped sum makes of it on overflow. *)
Definition effective_bytes (bytes : Z) (s : FixedSizedStream) : Z :=
  if advance_overflows bytes s
  then CInt.wrap (d_buffer_index s + bytes) - d_buffer_index s
  else bytes.

Arguments advance_overflows : simpl never.
Arguments effective_bytes : simpl never.

(** ** Vocabulary for the calls *)

(** The element count [n] of a call. *)
Definition count_of (c : call) : Z :=
  match c with
  | PackBool _ n | UnpackBool _ n | PackRaw _ _ n | UnpackRaw _ _ n => n
  end.

(** The packed width of one element of the call's kind. *)
Definition packed_width (c : call) : Z :=
  match c with
  | PackBool _ _ | UnpackBool _ _ => sizeofBool 1
  | PackRaw k _ _ | UnpackRaw k _ _ => width k
  end.

(** The call stopped at an access outside [d_buffer]. *)
Definition is_outside_buffer {A} (o : outcome A) : bool :=
  match o with
  | Undefined (OutsideBuffer _ _) _ _ => true
  | _ => false
  end.

(** The call stopped at the overflow of the cursor addition. *)
Definition is_overflow {A} (o : outcome A) : bool :=
  match o with
  | Undefined (SignedOverflow _) _ _ => true
  | _ => false
  end.


(** The cursor left by each pack or unpack of a run, in order (the
    positions given to [setCurrentIndex] are not in the list). *)
Fixpoint call_cursors (ops : list op) (s : FixedSizedStream) : list Z :=
  match ops with
  | [] => []
  | o :: ops' =>
      let r := exec_op o s in
      match o with
      | Call _ => [d_buffer_index (stream_of r)]
      | _ => []
      end
      ++ (if is_returned r then call_cursors ops' (stream_of r) else [])
  end.

(** * Properties *)

(** ** The cursor-advance primitive *)

Section CursorAdvance.

Variables (bytes : Z) (s : FixedSizedStream).

Lemma is_int_spec x : CInt.is_int x = true <-> CInt.in_range x.
Proof.
  unfold CInt.is_int, CInt.in_range.
  rewrite andb_true_iff, !Z.leb_le. reflexivity.
Qed.

Lemma no_overflow_in_range :
  CInt.in_range (d_buffer_index s + bytes) -> advance_overflows bytes s = false.
Proof.
  intros H. unfold advance_overflows.
  apply is_int_spec in H. rewrite H. apply andb_false_r.
Qed.

(** Within the capacity and not below [INT_MIN] there is no overflow:
    either the capacity is an [int], or the record is no program state. *)
Lemma no_overflow_within :
  CInt.INT_MIN <= d_buffer_index s + bytes ->
  d_buffer_index s + bytes <= d_buffer_size s ->
  advance_overflows bytes s = false.
Proof.
  intros Hlo Hhi. unfold advance_overflows, ints_typed.
  destruct (CInt.is_int (d_buffer_size s)) eqn:Hsz;
    [|now rewrite andb_false_r].
  apply is_int_spec in Hsz. unfold CInt.in_range in Hsz.
  assert (CInt.is_int (d_buffer_index s + bytes) = true) as ->
    by (apply is_int_spec; unfold CInt.in_range; lia).
  apply andb_false_r.
Qed.

Lemma no_overflow_zero : bytes = 0 -> advance_overflows bytes s = false.
Proof.
  intros ->. unfold advance_overflows, ints_typed. rewrite Z.add_0_r.
  destruct (CInt.is_int (d_buffer_index s)); [apply andb_false_r|].
  now rewrite !andb_false_r.
Qed.

Lemma advance_cases :
  (advance_overflows bytes s = true /\
   getPointerAndAdvanceCursor bytes s
   = Undefined (SignedOverflow (d_buffer_index s + bytes)) (d_buffer_index s)
       (advanced (effective_bytes bytes s) s))
  \/
  (advance_overflows bytes s = false /\
   d_buffer_index s + bytes > d_current_size s /\
   d_buffer_index s + bytes > d_buffer_size s /\
   getPointerAndAdvanceCursor bytes s = BufferOverrun (d_buffer_index s) (advanced bytes s))
  \/
  (advance_overflows bytes s = false /\
   ~ (d_buffer_index s + bytes > d_current_size s /\
      d_buffer_index s + bytes > d_buffer_size s) /\
   getPointerAndAdvanceCursor bytes s = Returned (d_buffer_index s) (advanced bytes s)).
Proof.
  unfold getPointerAndAdvanceCursor, advanced, effective_bytes.
  destruct (advance_overflows bytes s).
  - left. split; [reflexivity|]. do 2 f_equal; lia.
  - right. rewrite !Z.gtb_ltb.
    destruct (Z.ltb_spec (d_current_size s) (d_buffer_index s + bytes)) as [Hhw|Hhw];
      [destruct (Z.ltb_spec (d_buffer_size s) (d_buffer_index s + bytes)) as [Hcap|Hcap]|].
    + left. repeat split; try lia. do 2 f_equal. lia.
    + right. split; [reflexivity|]. split; [lia|]. do 2 f_equal. lia.
    + right. split; [reflexivity|]. split; [lia|]. do 2 f_equal. lia.
Qed.

Lemma effective_bytes_exact :
  advance_overflows bytes s = false -> effective_bytes bytes s = bytes.
Proof. unfold effective_bytes. now intros ->. Qed.

Lemma advance_stream :
  stream_of (getPointerAndAdvanceCursor bytes s) = advanced (effective_bytes bytes s) s.
Proof.
  destruct advance_cases as [(_ & ->)|[(Hov & _ & _ & ->)|(Hov & _ & ->)]];
    simpl; now rewrite ?(effective_bytes_exact Hov).
Qed.

Lemma advance_pointer :
  value_of (getPointerAndAdvanceCursor bytes s) = d_buffer_index s.
Proof.
  destruct advance_cases as [(_ & ->)|[(_ & _ & _ & ->)|(_ & _ & ->)]]; reflexivity.
Qed.

Lemma advance_overrun :
  is_overrun (getPointerAndAdvanceCursor bytes s) = true <->
  advance_overflows bytes s = false /\
  d_buffer_index s + bytes > d_current_size s /\
  d_buffer_index s + bytes > d_buffer_size s.
Proof.
  destruct advance_cases as [(Hov & ->)|[(Hov & H1 & H2 & ->)|(Hov & H & ->)]]; simpl.
  - rewrite Hov. split; [discriminate|intros [? _]; discriminate].
  - split; auto.
  - split; [discriminate | intros (_ & H1 & H2); tauto].
Qed.

End CursorAdvance.

(** ** Frames of the loops and of the raw copies *)

Lemma same_cursor_refl s : same_cursor s s.
Proof. repeat split. Qed.

Lemma same_cursor_with_buffer s buf : same_cursor s (with_buffer s buf).
Proof. repeat split. Qed.

Lemma same_cursor_trans s1 s2 s3 :
  same_cursor s1 s2 -> same_cursor s2 s3 -> same_cursor s1 s3.
Proof. unfold same_cursor. intuition congruence. Qed.

Lemma pack_bool_loop_frame todo : forall i data ptr s,
  let r := pack_bool_loop todo i data ptr s in
  is_overrun r = false /\ value_of r = data /\ same_cursor s (stream_of r).
Proof.
  induction todo as [|todo IH]; intros i data ptr s; simpl.
  - auto using same_cursor_refl.
  - destruct (read_at data i) as [b|]; simpl; [|auto using same_cursor_refl].
    destruct (write_at (d_buffer s) (ptr + i) (bool_to_char b)) as [buf|]; simpl;
      [|auto using same_cursor_refl].
    destruct (IH (i + 1) data ptr (with_buffer s buf)) as (H1 & H2 & H3).
    repeat split; auto; apply H3.
  Qed.

Lemma unpack_bool_loop_frame todo : forall i data ptr s,
  let r := unpack_bool_loop todo i data ptr s in
  is_overrun r = false /\ stream_of r = s.
Proof.
  induction todo as [|todo IH]; intros i data ptr s; simpl; [auto|].
  destruct (read_at (d_buffer s) (ptr + i)) as [c|]; simpl; [|auto].
  destruct (write_at data i (char_to_bool c)) as [data'|]; simpl; [|auto].
  apply IH.
Qed.

Lemma pack_raw_unfold k data n s :
  pack_raw k data n s = __pack data (CInt.to_unsigned (width k * n)) s.
Proof.
  destruct k; simpl;
    unfold pack_char, pack_dcomplex, pack_double, pack_float, pack_int,
      sizeofChar, sizeofDoubleComplex, sizeofDouble, sizeofFloat, sizeofInt;
    do 2 f_equal; lia.
Qed.

Lemma unpack_raw_unfold k data n s :
  unpack_raw k data n s = __unpack data (CInt.to_unsigned (width k * n)) s.
Proof.
  destruct k; simpl;
    unfold unpack_char, unpack_dcomplex, unpack_double, unpack_float, unpack_int,
      sizeofChar, sizeofDoubleComplex, sizeofDouble, sizeofFloat, sizeofInt;
    do 2 f_equal; lia.
Qed.

(** What every call does around its copy: the stream it ends with has
    the cursor and high-water mark the primitive leaves; it raises the
    overrun error exactly when the primitive does, and then nothing was
    copied; it returns only if the addition did not overflow. *)
Lemma exec_call_advance c s :
  let r := exec_call c s in
  same_cursor (advanced (effective_bytes (requested_bytes c) s) s) (stream_of r) /\
  (is_overrun r = true <->
     advance_overflows (requested_bytes c) s = false /\
     d_buffer_index s + requested_bytes c > d_current_size s /\
     d_buffer_index s + requested_bytes c > d_buffer_size s) /\
  (is_overrun r = true -> value_of r = argument c /\ d_buffer (stream_of r) = d_buffer s) /\
  (is_returned r = true -> advance_overflows (requested_bytes c) s = false).
Proof.
  destruct c as [data n|data n|k data n|k data n]; simpl;
    rewrite ?pack_raw_unfold, ?unpack_raw_unfold;
    unfold pack_bool, unpack_bool, __pack, __unpack;
    match goal with
    | |- context [getPointerAndAdvanceCursor ?b s] =>
        destruct (advance_cases b s) as [(Hov & ->)|[(Hov & H1 & H2 & ->)|(Hov & H & ->)]]
    end; simpl; rewrite ?(effective_bytes_exact _ _ Hov).
  all: try (rewrite Hov; repeat split; try discriminate; auto using same_cursor_refl;
            intros [? _]; discriminate).
  all: try (repeat split; auto using same_cursor_refl; fail).
  - destruct (pack_bool_loop_frame (Z.to_nat n) 0 data (d_buffer_index s)
                (advanced (sizeofBool n) s)) as (Ho & Hv & Hc).
    destruct (pack_bool_loop _ _ _ _ _); simpl in *; try discriminate;
      (split; [exact Hc|split; [split; [discriminate|intros (_ & ? & ?); tauto]
                               |split; [discriminate|auto]]]).
  - destruct (unpack_bool_loop_frame (Z.to_nat n) 0 data (d_buffer_index s)
                (advanced (sizeofBool n) s)) as (Ho & Hs).
    destruct (unpack_bool_loop _ _ _ _ _); simpl in *; try discriminate; subst;
      (split; [apply same_cursor_refl|split; [split; [discriminate|intros (_ & ? & ?); tauto]
                                             |split; [discriminate|auto]]]).
  - repeat (match goal with |- context [if ?b then _ else _] => destruct b end; simpl);
      (split; [repeat split|split; [split; [discriminate|intros (_ & ? & ?); tauto]
                                   |split; [discriminate|auto]]]).
  - repeat (match goal with |- context [if ?b then _ else _] => destruct b end; simpl);
      (split; [repeat split|split; [split; [discriminate|intros (_ & ? & ?); tauto]
                                   |split; [discriminate|auto]]]).
Qed.

Lemma of_to_unsigned x :
  CInt.in_range x -> CInt.of_unsigned (CInt.to_unsigned x) = x.
Proof.
  unfold CInt.in_range, CInt.of_unsigned, CInt.to_unsigned,
    CInt.INT_MIN, CInt.INT_MAX, CInt.UINT_MODULUS.
  intros Hx.
  destruct (Z.ltb_spec (x mod 4294967296) (2147483647 + 1)) as [H|H].
  - destruct (Z.lt_ge_cases x 0) as [Hneg|Hpos].
    + rewrite <- (Z.mod_add x 1 4294967296) in H by lia.
      rewrite Z.mod_small in H by lia. lia.
    + apply Z.mod_small. lia.
  - destruct (Z.lt_ge_cases x 0) as [Hneg|Hpos].
    + rewrite <- (Z.mod_add x 1 4294967296) by lia.
      rewrite Z.mod_small by lia. lia.
    + rewrite Z.mod_small in H by lia. lia.
Qed.

Lemma Z_of_byte_of_Z z : Z_of_byte (byte_of_Z z) = z mod 256.
Proof.
  unfold Z_of_byte, byte_of_Z.
  pose proof (Z.mod_pos_bound z 256 eq_refl) as Hz.
  destruct (Byte.of_N (Z.to_N (z mod 256))) as [b|] eqn:E; simpl.
  - apply Byte.to_of_N in E. rewrite E. lia.
  - apply Byte.of_N_None_iff in E. lia.
Qed.

Lemma le_value_bytes (w : nat) : forall z,
  le_value (le_bytes w z) = z mod 256 ^ Z.of_nat w.
Proof.
  induction w as [|w IH]; intros z.
  - simpl. now rewrite Z.mod_1_r.
  - cbn [le_bytes le_value]. rewrite Z_of_byte_of_Z, IH.
    rewrite Nat2Z.inj_succ, Z.pow_succ_r by lia.
    rewrite Z.rem_mul_r by lia. reflexivity.
Qed.

(** The layout of the scenarios is a faithful one: an [int] is read back
    from its four bytes. *)
Lemma int_value_repr v : CInt.in_range v -> int_value (int_repr v) = v.
Proof.
  intros Hv. unfold int_value, int_repr.
  rewrite le_value_bytes. now apply of_to_unsigned.
Qed.

Lemma requested_bytes_raw k data n :
  CInt.in_range (width k * n) ->
  requested_bytes (PackRaw k data n) = width k * n /\
  requested_bytes (UnpackRaw k data n) = width k * n.
Proof. intros H. simpl. rewrite of_to_unsigned by assumption. auto. Qed.

(** ** The scenarios on an undersized buffer and on an overwrite *)

(** Capacity 4: the first int fits (cursor 4), the second raises the
    overrun error. *)
Example second_int_overruns :
  exists s0 s1 s2,
    FixedSizedStream_new 4 = Some s0 /\
    pack_int (int_repr 1) 1 s0 = Returned (int_repr 1) s1 /\
    getCurrentIndex s1 = 4 /\
    pack_int (int_repr 1) 1 s1 = BufferOverrun (int_repr 1) s2.
Proof.
  eexists _, _, _. split; [reflexivity|].
  split; [vm_compute; reflexivity|]. split; [reflexivity|].
  vm_compute. reflexivity.
Qed.

(** Capacity 8: pack int(5), rewind, pack int(9): the size stays 4 and an
    unpack from offset 0 reads 9. *)
Example rewind_overwrites :
  exists s0 s1 s2 s3 i,
    FixedSizedStream_new 8 = Some s0 /\
    pack_int (int_repr 5) 1 s0 = Returned (int_repr 5) s1 /\
    pack_int (int_repr 9) 1 (setCurrentIndex 0 s1) = Returned (int_repr 9) s2 /\
    getCurrentIndex s2 = 4 /\ getCurrentSize s2 = 4 /\
    unpack_int (int_repr 0) 1 (setCurrentIndex 0 s2) = Returned i s3 /\
    int_value i = 9.
Proof.
  eexists _, _, _, _, _. split; [reflexivity|].
  split; [vm_compute; reflexivity|].
  split; [vm_compute; reflexivity|].
  split; [reflexivity|]. split; [reflexivity|].
  split; [vm_compute; reflexivity|].
  reflexivity.
Qed.

(** ** Reachable streams *)

Lemma reachable_ordered s :
  reachable s ->
  0 <= d_current_size s /\
  d_buffer_index s <= d_current_size s /\
  d_current_size s <= d_buffer_size s.
Proof.
  induction 1 as [bytes s Hnew|buffer bytes s Hwrap|c s a s' Hs IH Hcall|s Hs IH].
  - unfold FixedSizedStream_new in Hnew.
    destruct (Z.ltb_spec bytes 0); [discriminate|].
    injection Hnew as <-. simpl. lia.
  - unfold FixedSizedStream_wrap in Hwrap.
    destruct (Z.ltb_spec bytes 0); simpl in Hwrap; [discriminate|].
    destruct (Z.of_nat (length buffer) <? bytes); [discriminate|].
    injection Hwrap as <-. simpl. lia.
  - destruct (exec_call_advance c s) as ((Hsz & Hhw & Hix) & Hov & _ & Hret).
    rewrite Hcall in *. simpl in *.
    specialize (Hret eq_refl). rewrite (effective_bytes_exact _ _ Hret) in Hhw, Hix.
    destruct Hov as [_ Hov].
    assert (~ (d_buffer_index s + requested_bytes c > d_current_size s /\
               d_buffer_index s + requested_bytes c > d_buffer_size s)) as Hno
      by (intros [H1 H2]; specialize (Hov (conj Hret (conj H1 H2))); discriminate).
    rewrite Hsz, Hhw, Hix. lia.
  - simpl. lia.
Qed.

(** C7: resetIndex() is setCurrentIndex(0); afterwards the cursor is 0 and
    the buffer contents, the capacity and getCurrentSize() are what they
    were before the call. *)
Theorem resetIndex_moves_only_the_cursor (s : FixedSizedStream) :
  resetIndex s = setCurrentIndex 0 s /\
  getCurrentIndex (resetIndex s) = 0 /\
  getBufferStart (resetIndex s) = getBufferStart s /\
  d_buffer_size (resetIndex s) = d_buffer_size s /\
  getCurrentSize (resetIndex s) = getCurrentSize s.
Proof. repeat split. Qed.

(** C9: when a pack or unpack raises the buffer-overrun error, the stream
    it leaves has the cursor at old cursor + requested bytes and the
    high-water mark at that same value, and both exceed the capacity;
    the same holds of the cursor-advance primitive itself. *)
Theorem overrun_leaves_cursor_advanced :
  (forall bytes s ptr s',
     getPointerAndAdvanceCursor bytes s = BufferOverrun ptr s' ->
     d_buffer_index s' = d_buffer_index s + bytes /\
     d_current_size s' = d_buffer_index s + bytes /\
     d_buffer_index s' > d_buffer_size s' /\
     d_current_size s' > d_buffer_size s') /\
  (forall c s a s',
     exec_call c s = BufferOverrun a s' ->
     d_buffer_index s' = d_buffer_index s + requested_bytes c /\
     d_current_size s' = d_buffer_index s + requested_bytes c /\
     d_buffer_index s' > d_buffer_size s' /\
     d_current_size s' > d_buffer_size s').
Proof.
  split.
  - intros bytes s ptr s' H.
    destruct (advance_cases bytes s) as [(_ & E)|[(_ & H1 & H2 & E)|(_ & _ & E)]];
      rewrite E in H; try discriminate.
    injection H as _ <-. simpl. lia.
  - intros c s a s' H.
    destruct (exec_call_advance c s) as ((Hsz & Hhw & Hix) & Hov & _).
    rewrite H in *. simpl in *.
    destruct Hov as [Hov _]. destruct (Hov eq_refl) as (Hno & H1 & H2).
    rewrite (effective_bytes_exact _ _ Hno) in Hhw, Hix.
    rewrite Hsz, Hhw, Hix. lia.
Qed.

Lemma overrun_leaves_cursor_advanced_witness :
  let s := mkStream 4 4 4 (int_repr 1) in
  let s' := mkStream 4 8 8 (int_repr 1) in
  let c := PackRaw KInt (int_repr 2) 1 in
  (getPointerAndAdvanceCursor 4 s = BufferOverrun 4 s' /\
   exec_call c s = BufferOverrun (ByteArray (int_repr 2)) s') /\
  (d_buffer_index s' = d_buffer_index s + 4 /\
   d_current_size s' = d_buffer_index s + 4 /\
   d_buffer_index s' > d_buffer_size s' /\
   d_current_size s' > d_buffer_size s') /\
  (d_buffer_index s' = d_buffer_index s + requested_bytes c /\
   d_current_size s' = d_buffer_index s + requested_bytes c /\
   d_buffer_index s' > d_buffer_size s' /\
   d_current_size s' > d_buffer_size s').
Proof.
  intros s s' c.
  assert (getPointerAndAdvanceCursor 4 s = BufferOverrun 4 s') as Hp
    by (vm_compute; reflexivity).
  assert (exec_call c s = BufferOverrun (ByteArray (int_repr 2)) s') as H
    by (vm_compute; reflexivity).
  split; [split; [exact Hp|exact H]|].
  split.
  - exact (proj1 overrun_leaves_cursor_advanced 4 s 4 s' Hp).
  - exact (proj2 overrun_leaves_cursor_advanced c s _ s' H).
Defined.

(** C3: a pack or unpack that raises the buffer-overrun error has written
    no byte of the buffer and copied no byte out: the buffer and the
    caller's array are what they were before the call. *)
Theorem overrun_copies_nothing (c : call) (s : FixedSizedStream) (a : array)
    (s' : FixedSizedStream) :
  exec_call c s = BufferOverrun a s' ->
  d_buffer s' = d_buffer s /\ a = argument c.
Proof.
  intros H.
  destruct (exec_call_advance c s) as (_ & _ & Hfr & _).
  rewrite H in Hfr. simpl in Hfr.
  destruct (Hfr eq_refl) as [Ha Hb]. auto.
Qed.

Lemma overrun_copies_nothing_witness :
  let s := mkStream 4 4 4 (int_repr 1) in
  let s' := mkStream 4 8 8 (int_repr 1) in
  let c := UnpackRaw KInt (int_repr 7) 1 in
  exec_call c s = BufferOverrun (ByteArray (int_repr 7)) s' /\
  d_buffer s' = d_buffer s /\ ByteArray (int_repr 7) = argument c.
Proof.
  intros s s' c.
  assert (exec_call c s = BufferOverrun (ByteArray (int_repr 7)) s') as H
    by (vm_compute; reflexivity).
  split; [exact H|].
  exact (overrun_copies_nothing c s _ s' H).
Defined.



Lemma stream_of_map {A B} (f : A -> B) (o : outcome A) :
  stream_of (map_outcome f o) = stream_of o.
Proof. destruct o; reflexivity. Qed.

(** C8: where the cursor addition does not overflow, the primitive
    raises the overrun error only when the advanced cursor exceeds the
    high-water mark (and then the capacity); an advance that stays at or
    below the high-water mark returns whatever the capacity and the
    cursor are.  After setCurrentIndex(-4) on a stream holding one int,
    packing an int returns from the primitive with a pointer 4 bytes
    before the buffer: no overrun error, and the copy touches bytes
    outside the buffer. *)
Theorem capacity_check_only_above_high_water_mark :
  (forall bytes s,
     CInt.in_range (d_buffer_index s + bytes) ->
     (is_overrun (getPointerAndAdvanceCursor bytes s) = true <->
      d_buffer_index s + bytes > d_current_size s /\
      d_buffer_index s + bytes > d_buffer_size s)) /\
  (forall bytes s,
     CInt.in_range (d_buffer_index s + bytes) ->
     d_buffer_index s + bytes <= d_current_size s ->
     getPointerAndAdvanceCursor bytes s = Returned (d_buffer_index s) (advanced bytes s)) /\
  (exists s0 s1 s,
     FixedSizedStream_new 8 = Some s0 /\
     pack_int (int_repr 5) 1 s0 = Returned (int_repr 5) s1 /\
     s = setCurrentIndex (-4) s1 /\
     getPointerAndAdvanceCursor (sizeofInt 1) s = Returned (-4) (advanced 4 s) /\
     range_inside (-4) 4 (length (d_buffer s)) = false /\
     pack_int (int_repr 9) 1 s = Undefined (OutsideBuffer (-4) 4) (int_repr 9) (advanced 4 s) /\
     is_overrun (pack_int (int_repr 9) 1 s) = false).
Proof.
  split; [|split].
  - intros bytes s Hin. rewrite advance_overrun.
    pose proof (no_overflow_in_range bytes s Hin). tauto.
  - intros bytes s Hin Hle.
    pose proof (no_overflow_in_range bytes s Hin) as Hno.
    destruct (advance_cases bytes s) as [(Hov & _)|[(_ & H1 & _ & _)|(_ & _ & E)]];
      [congruence|lia|exact E].
  - eexists _, _, _. split; [reflexivity|].
    split; [vm_compute; reflexivity|].
    split; [reflexivity|].
    repeat split; vm_compute; reflexivity.
Qed.

Lemma capacity_check_only_above_high_water_mark_witness :
  let s := mkStream 8 4 (-4) (int_repr 5 ++ replicate 4 x00) in
  (CInt.in_range (d_buffer_index s + 4) /\
   d_buffer_index s + 4 <= d_current_size s) /\
  (is_overrun (getPointerAndAdvanceCursor 4 s) = true <->
   d_buffer_index s + 4 > d_current_size s /\
   d_buffer_index s + 4 > d_buffer_size s) /\
  getPointerAndAdvanceCursor 4 s = Returned (d_buffer_index s) (advanced 4 s).
Proof.
  intros s.
  assert (CInt.in_range (d_buffer_index s + 4)) as H0 by (vm_compute; split; discriminate).
  assert (d_buffer_index s + 4 <= d_current_size s) as H by (vm_compute; discriminate).
  split; [split; assumption|]. split.
  - exact (proj1 capacity_check_only_above_high_water_mark 4 s H0).
  - exact (proj1 (proj2 capacity_check_only_above_high_water_mark) 4 s H0 H).
Defined.

(** ** Segments: the buffer as [pre ++ mid ++ post] *)

Section Segments.

Context {A : Type}.
Implicit Types (l pre mid post : list A).

Lemma read_at_middle pre post (x : A) i :
  i = Z.of_nat (length pre) -> read_at (pre ++ x :: post) i = Some x.
Proof.
  intros ->. unfold read_at.
  destruct (Z.ltb_spec (Z.of_nat (length pre)) 0); [lia|].
  rewrite Nat2Z.id. now apply list_lookup_middle.
Qed.

Lemma write_at_middle pre post (x y : A) i :
  i = Z.of_nat (length pre) ->
  write_at (pre ++ x :: post) i y = Some (pre ++ y :: post).
Proof.
  intros ->. unfold write_at.
  rewrite length_app. simpl.
  destruct (Z.leb_spec 0 (Z.of_nat (length pre))); [|lia].
  destruct (Z.ltb_spec (Z.of_nat (length pre)) (Z.of_nat (length pre + S (length post))));
    [|lia].
  simpl. rewrite Nat2Z.id.
  replace (length pre) with (length pre + 0)%nat at 1 by lia.
  now rewrite insert_app_r.
Qed.

Lemma snoc_middle pre (x : A) post : pre ++ x :: post = (pre ++ [x]) ++ post.
Proof. now rewrite <- app_assoc. Qed.

End Segments.

Lemma memcpy_segment (pre mid post src : list byte) ptr count :
  ptr = Z.of_nat (length pre) ->
  count = Z.of_nat (length mid) ->
  memcpy (pre ++ mid ++ post) ptr src count = pre ++ take (length mid) src ++ post.
Proof.
  intros -> ->. unfold memcpy.
  rewrite take_app_length' by lia.
  rewrite (app_assoc pre mid post).
  rewrite (drop_app_length' (pre ++ mid) post) by (rewrite length_app; lia).
  now rewrite Nat2Z.id.
Qed.

Lemma slice_segment (pre mid post : list byte) ptr count :
  ptr = Z.of_nat (length pre) ->
  count = Z.of_nat (length mid) ->
  slice (pre ++ mid ++ post) ptr count = mid.
Proof.
  intros -> ->. unfold slice.
  rewrite drop_app_length' by lia.
  now rewrite take_app_length' by lia.
Qed.

Lemma with_buffer_same s : with_buffer s (d_buffer s) = s.
Proof. now destruct s. Qed.

Lemma pack_bool_loop_segment (ds : list bool) :
  forall (dpre drest : list bool) (pre mid post : list byte) ptr s,
    length mid = length ds ->
    d_buffer s = pre ++ mid ++ post ->
    ptr + Z.of_nat (length dpre) = Z.of_nat (length pre) ->
    pack_bool_loop (length ds) (Z.of_nat (length dpre)) (dpre ++ ds ++ drest) ptr s
    = Returned (dpre ++ ds ++ drest)
        (with_buffer s (pre ++ (bool_to_char <$> ds) ++ post)).
Proof.
  induction ds as [|d ds IH]; intros dpre drest pre mid post ptr s Hlen Hbuf Hptr.
  - destruct mid; [|discriminate]. simpl in *. now rewrite <- Hbuf, with_buffer_same.
  - destruct mid as [|m mid]; [discriminate|]. simpl in Hlen.
    cbn [pack_bool_loop length].
    rewrite (read_at_middle dpre (ds ++ drest) d) by reflexivity.
    rewrite Hbuf. cbn [app].
    rewrite (write_at_middle pre (mid ++ post) m (bool_to_char d)) by lia.
    rewrite (snoc_middle dpre d (ds ++ drest)).
    replace (Z.of_nat (length dpre) + 1) with (Z.of_nat (length (dpre ++ [d])))
      by (rewrite length_app; simpl; lia).
    rewrite (IH (dpre ++ [d]) drest (pre ++ [bool_to_char d]) mid post ptr).
    + f_equal. unfold with_buffer. simpl. f_equal.
      now rewrite <- app_assoc.
    + lia.
    + simpl. now rewrite <- app_assoc.
    + rewrite !length_app. simpl. lia.
Qed.

Lemma unpack_bool_loop_segment (mid : list byte) :
  forall (dpre dmid drest : list bool) (pre post : list byte) ptr s,
    length dmid = length mid ->
    d_buffer s = pre ++ mid ++ post ->
    ptr + Z.of_nat (length dpre) = Z.of_nat (length pre) ->
    unpack_bool_loop (length mid) (Z.of_nat (length dpre)) (dpre ++ dmid ++ drest) ptr s
    = Returned (dpre ++ (char_to_bool <$> mid) ++ drest) s.
Proof.
  induction mid as [|m mid IH]; intros dpre dmid drest pre post ptr s Hlen Hbuf Hptr.
  - destruct dmid; [|discriminate]. reflexivity.
  - destruct dmid as [|d dmid]; [discriminate|]. simpl in Hlen.
    cbn [unpack_bool_loop length].
    rewrite Hbuf. cbn [app].
    rewrite (read_at_middle pre (mid ++ post) m) by lia.
    rewrite (write_at_middle dpre (dmid ++ drest) d (char_to_bool m)) by reflexivity.
    rewrite (snoc_middle dpre (char_to_bool m) (dmid ++ drest)).
    replace (Z.of_nat (length dpre) + 1) with (Z.of_nat (length (dpre ++ [char_to_bool m])))
      by (rewrite length_app; simpl; lia).
    rewrite (IH (dpre ++ [char_to_bool m]) dmid drest (pre ++ [m]) post ptr).
    + f_equal. simpl. now rewrite <- app_assoc.
    + lia.
    + rewrite Hbuf. simpl. now rewrite <- app_assoc.
    + rewrite !length_app. simpl. lia.
Qed.

Lemma to_unsigned_small x :
  0 <= x <= CInt.INT_MAX ->
  CInt.to_unsigned x = x /\ CInt.of_unsigned x = x.
Proof.
  unfold CInt.to_unsigned, CInt.of_unsigned, CInt.INT_MAX, CInt.UINT_MODULUS.
  intros Hx. split.
  - apply Z.mod_small. lia.
  - destruct (Z.ltb_spec x (2147483647 + 1)); lia.
Qed.

Lemma advance_within bytes s :
  0 <= d_buffer_index s + bytes ->
  d_buffer_index s + bytes <= d_buffer_size s ->
  getPointerAndAdvanceCursor bytes s = Returned (d_buffer_index s) (advanced bytes s).
Proof.
  intros Hlo Hle.
  assert (advance_overflows bytes s = false) as Hno
    by (apply no_overflow_within; [unfold CInt.INT_MIN; lia|exact Hle]).
  destruct (advance_cases bytes s) as [(Hov & _)|[(_ & _ & H & _)|(_ & _ & E)]];
    [congruence|lia|exact E].
Qed.

Lemma range_inside_true lo count len :
  0 <= lo -> lo + count <= Z.of_nat len -> range_inside lo count len = true.
Proof.
  intros H1 H2. unfold range_inside.
  destruct (Z.leb_spec 0 lo); [|lia].
  destruct (Z.leb_spec (lo + count) (Z.of_nat len)); [|lia].
  apply orb_true_r.
Qed.

(** A well-sized pack call at the start of [mid] returns and replaces
    [mid] by the bytes of its array. *)
Lemma pack_call_segment c s (pre mid post : list byte) :
  pack_of c ->
  d_buffer s = pre ++ mid ++ post ->
  d_buffer_index s = Z.of_nat (length pre) ->
  length mid = length (wire c) ->
  Z.of_nat (length pre) + Z.of_nat (length (wire c)) <= d_buffer_size s ->
  d_buffer_size s <= CInt.INT_MAX ->
  exists s',
    exec_call c s = Returned (argument c) s' /\
    d_buffer s' = pre ++ wire c ++ post /\
    d_buffer_index s' = d_buffer_index s + Z.of_nat (length (wire c)) /\
    d_buffer_size s' = d_buffer_size s.
Proof.
  intros Hc Hbuf Hix Hmid Hroom Hmax.
  destruct c as [data n|data n|k data n|k data n]; simpl in Hc; try contradiction.
  - subst n. simpl in *. rewrite length_fmap in *.
    unfold pack_bool, sizeofBool.
    rewrite advance_within by lia. rewrite Nat2Z.id.
    pose proof (pack_bool_loop_segment data [] [] pre mid post (d_buffer_index s)
                  (advanced (Z.of_nat (length data)) s) Hmid Hbuf) as Hloop.
    simpl in Hloop. change (Z.of_nat 0) with 0 in Hloop.
    rewrite app_nil_r in Hloop. rewrite Hloop by lia.
    simpl. eexists. split; [reflexivity|]. simpl. auto.
  - destruct Hc as [Hn Hlen]. simpl in *.
    rewrite pack_raw_unfold. unfold __pack.
    destruct (to_unsigned_small (width k * n)) as [Eu Eo]; [lia|].
    rewrite Eu, Eo.
    rewrite advance_within by lia. simpl.
    rewrite range_inside_true
      by (rewrite ?Hbuf, ?length_app; lia).
    rewrite range_inside_true by lia. simpl.
    eexists. split; [reflexivity|]. simpl.
    split; [|split; [lia|reflexivity]].
    rewrite Hbuf.
    rewrite (memcpy_segment pre mid post data) by lia.
    now rewrite take_ge by lia.
Qed.

(** The mirror unpack call at the start of the bytes a pack call wrote
    returns the packed array and leaves the buffer alone. *)
Lemma unpack_call_segment p u s (pre post : list byte) :
  pack_of p ->
  mirrors p u ->
  d_buffer s = pre ++ wire p ++ post ->
  d_buffer_index s = Z.of_nat (length pre) ->
  Z.of_nat (length pre) + Z.of_nat (length (wire p)) <= d_buffer_size s ->
  d_buffer_size s <= CInt.INT_MAX ->
  exists s',
    exec_call u s = Returned (argument p) s' /\
    d_buffer s' = d_buffer s /\
    d_buffer_index s' = d_buffer_index s + Z.of_nat (length (wire p)) /\
    d_buffer_size s' = d_buffer_size s.
Proof.
  intros Hp Hm Hbuf Hix Hroom Hmax.
  destruct p as [data n|data n|k data n|k data n]; simpl in Hp; try contradiction;
    destruct u as [out n'|out n'|k' out n'|k' out n']; simpl in Hm; try contradiction.
  - destruct Hm as [-> Hout]. subst n. simpl in *. rewrite length_fmap in *.
    unfold unpack_bool, sizeofBool.
    rewrite advance_within by lia. rewrite Nat2Z.id.
    pose proof (unpack_bool_loop_segment (bool_to_char <$> data) [] out [] pre post
                  (d_buffer_index s) (advanced (Z.of_nat (length data)) s)) as Hloop.
    rewrite length_fmap in Hloop. simpl in Hloop. change (Z.of_nat 0) with 0 in Hloop.
    rewrite app_nil_r in Hloop.
    rewrite Hloop by (try assumption; lia).
    simpl. eexists. split.
    + do 2 f_equal. rewrite app_nil_r, <- list_fmap_compose.
      rewrite <- (list_fmap_id data) at 2.
      apply list_fmap_ext. intros _ [] _; reflexivity.
    + simpl. auto.
  - destruct Hm as (-> & -> & Hout). destruct Hp as [Hn Hlen]. simpl in *.
    rewrite unpack_raw_unfold. unfold __unpack.
    destruct (to_unsigned_small (width k * n)) as [Eu Eo]; [lia|].
    rewrite Eu, Eo.
    rewrite advance_within by lia. simpl.
    rewrite range_inside_true
      by (rewrite ?Hbuf, ?length_app; lia).
    rewrite range_inside_true by lia. simpl.
    eexists. split.
    + do 2 f_equal.
      rewrite Hbuf, (slice_segment pre data post) by lia.
      rewrite <- (app_nil_r out) at 1.
      rewrite (memcpy_segment [] out [] data) by (simpl; lia).
      simpl. rewrite app_nil_r. apply take_ge. lia.
    + simpl. split; [reflexivity|split; [lia|reflexivity]].
Qed.

Lemma wire_cons p (ps : list call) :
  concat (wire <$> p :: ps) = wire p ++ concat (wire <$> ps).
Proof. reflexivity. Qed.

Lemma pack_calls_segment (ps : list call) :
  forall s (pre mid post : list byte),
    Forall pack_of ps ->
    d_buffer s = pre ++ mid ++ post ->
    d_buffer_index s = Z.of_nat (length pre) ->
    Z.of_nat (length mid) = wire_size ps ->
    Z.of_nat (length pre) + wire_size ps <= d_buffer_size s ->
    d_buffer_size s <= CInt.INT_MAX ->
    exists s',
      exec_calls ps s = Returned (argument <$> ps) s' /\
      d_buffer s' = pre ++ concat (wire <$> ps) ++ post /\
      d_buffer_index s' = d_buffer_index s + wire_size ps /\
      d_buffer_size s' = d_buffer_size s.
Proof.
  unfold wire_size.
  induction ps as [|p ps IH]; intros s pre mid post Hps Hbuf Hix Hmid Hroom Hmax.
  - simpl in *. destruct mid; [|discriminate].
    exists s. repeat split; [assumption|lia].
  - pose proof (Forall_inv Hps) as Hp. apply Forall_inv_tail in Hps.
    rewrite wire_cons, length_app in Hmid, Hroom.
    rewrite <- (take_drop (length (wire p)) mid) in Hbuf.
    rewrite <- app_assoc in Hbuf.
    destruct (pack_call_segment p s pre (take (length (wire p)) mid)
                (drop (length (wire p)) mid ++ post) Hp Hbuf Hix)
      as (s1 & E1 & Hbuf1 & Hix1 & Hsz1); [rewrite length_take; lia|lia|lia|].
    rewrite (app_assoc pre) in Hbuf1.
    destruct (IH s1 (pre ++ wire p) (drop (length (wire p)) mid) post Hps Hbuf1)
      as (s2 & E2 & Hbuf2 & Hix2 & Hsz2);
      [rewrite length_app; lia|rewrite length_drop; lia
      |rewrite length_app; lia|lia|].
    exists s2. cbn [exec_calls]. rewrite E1, E2.
    split; [reflexivity|]. split; [|split].
    + rewrite Hbuf2, wire_cons. now rewrite <- !app_assoc.
    + rewrite wire_cons, length_app. lia.
    + lia.
Qed.

Lemma unpack_calls_segment (ps : list call) :
  forall (us : list call) s (pre post : list byte),
    Forall pack_of ps ->
    Forall2 mirrors ps us ->
    d_buffer s = pre ++ concat (wire <$> ps) ++ post ->
    d_buffer_index s = Z.of_nat (length pre) ->
    Z.of_nat (length pre) + wire_size ps <= d_buffer_size s ->
    d_buffer_size s <= CInt.INT_MAX ->
    exists s',
      exec_calls us s = Returned (argument <$> ps) s' /\
      d_buffer s' = d_buffer s.
Proof.
  unfold wire_size.
  induction ps as [|p ps IH]; intros us s pre post Hps Hus Hbuf Hix Hroom Hmax.
  - apply Forall2_nil_inv_l in Hus as ->. exists s. split; reflexivity.
  - apply Forall2_cons_inv_l in Hus as (u & us' & Hu & Hus & ->).
    pose proof (Forall_inv Hps) as Hp. apply Forall_inv_tail in Hps.
    rewrite wire_cons in Hbuf, Hroom. rewrite length_app in Hroom.
    rewrite <- app_assoc in Hbuf.
    destruct (unpack_call_segment p u s pre (concat (wire <$> ps) ++ post) Hp Hu Hbuf Hix)
      as (s1 & E1 & Hbuf1 & Hix1 & Hsz1); [lia|lia|].
    rewrite Hbuf, (app_assoc pre) in Hbuf1.
    destruct (IH us' s1 (pre ++ wire p) post Hps Hus Hbuf1)
      as (s2 & E2 & Hbuf2); [rewrite length_app; lia|rewrite length_app; lia|lia|].
    exists s2. cbn [exec_calls]. rewrite E1, E2.
    split; [reflexivity|]. rewrite Hbuf2, Hbuf1. now rewrite <- !app_assoc.
Qed.

(** C1: a sequence of pack calls (booleans, chars, ints, floats, doubles,
    double complexes; each with an array of exactly n elements) from
    cursor 0 on a buffer that holds them all returns; after resetIndex()
    the same sequence of unpack calls (same kinds, same counts, same
    order) returns and leaves in the callers' output arrays exactly the
    arrays that were packed: the same bytes for the raw-copied kinds, the
    same booleans for the booleans. *)
Theorem pack_reset_unpack_roundtrip (ps us : list call) (s : FixedSizedStream) :
  buffer_ok s ->
  d_buffer_index s = 0 ->
  Forall pack_of ps ->
  Forall2 mirrors ps us ->
  wire_size ps <= d_buffer_size s ->
  exists s1 s2,
    exec_calls ps s = Returned (argument <$> ps) s1 /\
    exec_calls us (resetIndex s1) = Returned (argument <$> ps) s2.
Proof.
  intros [Hlen Hmax] Hix Hps Hus Hroom.
  pose proof (take_drop (Z.to_nat (wire_size ps)) (d_buffer s)) as Hsplit.
  destruct (pack_calls_segment ps s [] (take (Z.to_nat (wire_size ps)) (d_buffer s))
              (drop (Z.to_nat (wire_size ps)) (d_buffer s)) Hps)
    as (s1 & E1 & Hbuf1 & Hix1 & Hsz1);
    [now rewrite Hsplit|assumption| |simpl; lia|assumption|].
  { rewrite length_take. unfold wire_size in *. lia. }
  destruct (unpack_calls_segment ps us (resetIndex s1) []
              (drop (Z.to_nat (wire_size ps)) (d_buffer s)) Hps Hus)
    as (s2 & E2 & _); [exact Hbuf1|reflexivity|simpl; lia|simpl; lia|].
  exists s1, s2. split; assumption.
Qed.

Lemma pack_reset_unpack_roundtrip_witness :
  let s := mkStream 40 0 0 (replicate 40 x00) in
  let ps := [PackRaw KInt (int_repr 42) 1;
             PackBool [true; false; true] 3;
             PackRaw KChar [x68; x69] 2;
             PackRaw KFloat (le_bytes 4 1078530011) 1;
             PackRaw KDouble (double_repr double_3_14) 1;
             PackRaw KDComplex (double_repr double_3_14 ++ double_repr 0) 1] in
  let us := [UnpackRaw KInt (int_repr 0) 1;
             UnpackBool [false; false; false] 3;
             UnpackRaw KChar [x00; x00] 2;
             UnpackRaw KFloat (le_bytes 4 0) 1;
             UnpackRaw KDouble (double_repr 0) 1;
             UnpackRaw KDComplex (replicate 16 xff) 1] in
  (buffer_ok s /\ d_buffer_index s = 0 /\ Forall pack_of ps /\
   Forall2 mirrors ps us /\ wire_size ps <= d_buffer_size s) /\
  exists s1 s2,
    exec_calls ps s = Returned (argument <$> ps) s1 /\
    exec_calls us (resetIndex s1) = Returned (argument <$> ps) s2.
Proof.
  intros s ps us.
  assert (buffer_ok s) as H1 by (split; vm_compute; [reflexivity|discriminate]).
  assert (d_buffer_index s = 0) as H2 by reflexivity.
  assert (Forall pack_of ps) as H3
    by (repeat constructor; vm_compute; discriminate).
  assert (Forall2 mirrors ps us) as H4 by (repeat constructor).
  assert (wire_size ps <= d_buffer_size s) as H5 by (vm_compute; discriminate).
  split; [repeat split; assumption|].
  exact (pack_reset_unpack_roundtrip ps us s H1 H2 H3 H4 H5).
Defined.

Lemma advanced_fields (c : call) s :
  CInt.in_range (d_buffer_index s + requested_bytes c) ->
  let s' := stream_of (exec_call c s) in
  getCurrentIndex s' = getCurrentIndex s + requested_bytes c /\
  getCurrentSize s' = Z.max (getCurrentSize s) (getCurrentIndex s + requested_bytes c).
Proof.
  intros Hin.
  destruct (exec_call_advance c s) as ((_ & Hhw & Hix) & _).
  rewrite (effective_bytes_exact _ _ (no_overflow_in_range _ _ Hin)) in Hhw, Hix.
  unfold getCurrentIndex, getCurrentSize. simpl. now rewrite Hhw, Hix.
Qed.

(** C5: every pack of n elements of a kind leaves the cursor advanced by
    packed-width(kind) x n bytes (the byte count and the new cursor being
    ints: the addition does not overflow) and the high-water mark at the
    larger of its old value and the new cursor.
    On a 16-byte stream, packing int(42) then double(3.14) leaves
    cursor = 12 and getCurrentSize() = 12; after resetIndex(), unpacking
    an int and then a double gives back 42 and 3.14. *)
Theorem pack_advances_by_width_times_count :
  (forall data n s,
     CInt.in_range (getCurrentIndex s + 1 * n) ->
     let s' := stream_of (pack_bool data n s) in
     getCurrentIndex s' = getCurrentIndex s + 1 * n /\
     getCurrentSize s' = Z.max (getCurrentSize s) (getCurrentIndex s + 1 * n)) /\
  (forall k data n s,
     CInt.in_range (width k * n) ->
     CInt.in_range (getCurrentIndex s + width k * n) ->
     let s' := stream_of (pack_raw k data n s) in
     getCurrentIndex s' = getCurrentIndex s + width k * n /\
     getCurrentSize s' = Z.max (getCurrentSize s) (getCurrentIndex s + width k * n)) /\
  (width KChar = 1 /\ width KInt = 4 /\ width KFloat = 4 /\
   width KDouble = 8 /\ width KDComplex = 16) /\
  (exists s0 s1 s2 s3 s4 i d,
     FixedSizedStream_new 16 = Some s0 /\
     pack_int (int_repr 42) 1 s0 = Returned (int_repr 42) s1 /\
     pack_double (double_repr double_3_14) 1 s1 = Returned (double_repr double_3_14) s2 /\
     getCurrentIndex s2 = 12 /\ getCurrentSize s2 = 12 /\
     unpack_int (int_repr 0) 1 (resetIndex s2) = Returned i s3 /\
     int_value i = 42 /\
     unpack_double (double_repr 0) 1 s3 = Returned d s4 /\
     double_bits d = double_3_14).
Proof.
  split; [|split; [|split]].
  - intros data n s Hin. rewrite Z.mul_1_l in *.
    pose proof (advanced_fields (PackBool data n) s Hin) as H.
    cbn [exec_call requested_bytes] in H. rewrite stream_of_map in H.
    exact H.
  - intros k data n s Hn Hin.
    pose proof (proj1 (requested_bytes_raw k data n Hn)) as E.
    assert (CInt.in_range (d_buffer_index s + requested_bytes (PackRaw k data n))) as Hin'
      by (rewrite E; exact Hin).
    pose proof (advanced_fields (PackRaw k data n) s Hin') as H.
    cbn [exec_call] in H. rewrite stream_of_map in H.
    rewrite E in H. exact H.
  - repeat split.
  - eexists _, _, _, _, _, _, _.
    split; [reflexivity|].
    split; [vm_compute; reflexivity|].
    split; [vm_compute; reflexivity|].
    split; [reflexivity|]. split; [reflexivity|].
    split; [vm_compute; reflexivity|].
    split; [reflexivity|].
    split; [vm_compute; reflexivity|].
    reflexivity.
Qed.

Lemma pack_advances_by_width_times_count_witness :
  let s := mkStream 16 4 4 (int_repr 42 ++ replicate 12 x00) in
  let s' := stream_of (pack_raw KDouble (double_repr double_3_14) 1 s) in
  let t := stream_of (pack_bool [true; false] 2 s) in
  (CInt.in_range (width KDouble * 1) /\
   CInt.in_range (getCurrentIndex s + width KDouble * 1) /\
   CInt.in_range (getCurrentIndex s + 1 * 2)) /\
  (getCurrentIndex s' = getCurrentIndex s + width KDouble * 1 /\
   getCurrentSize s' = Z.max (getCurrentSize s) (getCurrentIndex s + width KDouble * 1)) /\
  (getCurrentIndex t = getCurrentIndex s + 1 * 2 /\
   getCurrentSize t = Z.max (getCurrentSize s) (getCurrentIndex s + 1 * 2)).
Proof.
  intros s s' t.
  assert (CInt.in_range (width KDouble * 1)) as H by (vm_compute; split; discriminate).
  assert (CInt.in_range (getCurrentIndex s + width KDouble * 1)) as H'
    by (vm_compute; split; discriminate).
  assert (CInt.in_range (getCurrentIndex s + 1 * 2)) as H''
    by (vm_compute; split; discriminate).
  split; [split; [exact H|split; [exact H'|exact H'']]|]. split.
  - exact (proj1 (proj2 pack_advances_by_width_times_count)
             KDouble (double_repr double_3_14) 1 s H H').
  - exact (proj1 pack_advances_by_width_times_count [true; false] 2 s H'').
Defined.

Lemma pack_bool_segment (data : list bool) s (pre mid post : list byte) :
  d_buffer s = pre ++ mid ++ post ->
  d_buffer_index s = Z.of_nat (length pre) ->
  length mid = length data ->
  Z.of_nat (length pre) + Z.of_nat (length data) <= d_buffer_size s ->
  pack_bool data (Z.of_nat (length data)) s
  = Returned data
      (with_buffer (advanced (Z.of_nat (length data)) s)
         (pre ++ (bool_to_char <$> data) ++ post)).
Proof.
  intros Hbuf Hix Hmid Hroom.
  unfold pack_bool, sizeofBool.
  rewrite advance_within by lia. rewrite Nat2Z.id.
  pose proof (pack_bool_loop_segment data [] [] pre mid post (d_buffer_index s)
                (advanced (Z.of_nat (length data)) s) Hmid Hbuf) as Hloop.
  simpl in Hloop. change (Z.of_nat 0) with 0 in Hloop.
  rewrite app_nil_r in Hloop. now rewrite Hloop by lia.
Qed.

Lemma char_to_bool_spec (c : byte) : char_to_bool c = true <-> c = x01.
Proof.
  unfold char_to_bool. split.
  - apply Byte.byte_dec_bl.
  - apply Byte.byte_dec_lb.
Qed.

(** C6: packing booleans stores one byte per element, 0x01 for true and
    0x00 for false: after a pack of an array that fits, the bytes of the
    buffer from the old cursor on are the elements so encoded.  Packing
    [true, false, true] at offset 0 makes the first three bytes of the
    buffer [0x01, 0x00, 0x01], and unpacking three booleans from there
    gives [true, false, true]. *)
Theorem pack_bool_stores_one_canonical_byte_each :
  (bool_to_char true = x01 /\ bool_to_char false = x00) /\
  (forall (data : list bool) s,
     0 <= d_buffer_index s ->
     d_buffer_index s + Z.of_nat (length data) <= d_buffer_size s ->
     d_buffer_size s = Z.of_nat (length (d_buffer s)) ->
     exists s',
       pack_bool data (Z.of_nat (length data)) s = Returned data s' /\
       slice (d_buffer s') (d_buffer_index s) (Z.of_nat (length data))
       = bool_to_char <$> data) /\
  (exists s0 s1 s2,
     FixedSizedStream_new 16 = Some s0 /\
     pack_bool [true; false; true] 3 s0 = Returned [true; false; true] s1 /\
     take 3 (getBufferStart s1) = [x01; x00; x01] /\
     unpack_bool [false; false; false] 3 (resetIndex s1)
     = Returned [true; false; true] s2).
Proof.
  split; [split; reflexivity|]. split.
  - intros data s Hix Hroom Hlen.
    set (i := Z.to_nat (d_buffer_index s)).
    set (n := length data).
    assert (d_buffer s = take i (d_buffer s) ++ take n (drop i (d_buffer s))
                           ++ drop n (drop i (d_buffer s))) as Hbuf
      by now rewrite !take_drop.
    assert (length (take i (d_buffer s)) = i) as Hpre
      by (rewrite length_take; subst i; lia).
    assert (length (take n (drop i (d_buffer s))) = n) as Hmid
      by (rewrite length_take, length_drop; subst i n; lia).
    eexists. split.
    + apply (pack_bool_segment data s _ _ _ Hbuf); [|exact Hmid|]; rewrite Hpre; subst i; lia.
    + simpl. apply slice_segment; [rewrite Hpre; subst i; lia|].
      now rewrite length_fmap.
  - eexists _, _, _.
    split; [reflexivity|].
    split; [vm_compute; reflexivity|].
    split; [reflexivity|].
    vm_compute. reflexivity.
Qed.

Lemma pack_bool_stores_one_canonical_byte_each_witness :
  let s := mkStream 8 4 4 (int_repr 5 ++ replicate 4 xff) in
  let data := [false; true; true] in
  (0 <= d_buffer_index s /\
   d_buffer_index s + Z.of_nat (length data) <= d_buffer_size s /\
   d_buffer_size s = Z.of_nat (length (d_buffer s))) /\
  exists s',
    pack_bool data (Z.of_nat (length data)) s = Returned data s' /\
    slice (d_buffer s') (d_buffer_index s) (Z.of_nat (length data))
    = bool_to_char <$> data.
Proof.
  intros s data.
  assert (0 <= d_buffer_index s) as H1 by (vm_compute; discriminate).
  assert (d_buffer_index s + Z.of_nat (length data) <= d_buffer_size s) as H2
    by (vm_compute; discriminate).
  assert (d_buffer_size s = Z.of_nat (length (d_buffer s))) as H3 by reflexivity.
  split; [repeat split; assumption|].
  exact (proj1 (proj2 pack_bool_stores_one_canonical_byte_each) data s H1 H2 H3).
Defined.

Lemma read_at_Some_nonneg {A} (l : list A) (i : Z) (x : A) :
  read_at l i = Some x -> 0 <= i.
Proof. unfold read_at. destruct (Z.ltb_spec i 0); [discriminate|auto]. Qed.

(** C10: unpacking a boolean decodes the stored byte as true if and only
    if the byte is exactly 1, whatever byte the buffer holds at the
    cursor; 0, 2 and 255 all decode as false. *)
Theorem unpack_bool_true_iff_byte_is_one :
  (forall c : byte, char_to_bool c = true <-> c = x01) /\
  (forall (c : byte) (old : bool) s,
     read_at (d_buffer s) (d_buffer_index s) = Some c ->
     d_buffer_index s + 1 <= d_buffer_size s ->
     unpack_bool [old] 1 s = Returned [char_to_bool c] (advanced 1 s)) /\
  (forall (pre mid post : list byte) (out : list bool) s,
     d_buffer s = pre ++ mid ++ post ->
     d_buffer_index s = Z.of_nat (length pre) ->
     length out = length mid ->
     d_buffer_index s + Z.of_nat (length mid) <= d_buffer_size s ->
     unpack_bool out (Z.of_nat (length mid)) s
     = Returned (char_to_bool <$> mid) (advanced (Z.of_nat (length mid)) s)) /\
  (char_to_bool x00 = false /\ char_to_bool x01 = true /\
   char_to_bool x02 = false /\ char_to_bool xff = false).
Proof.
  split; [exact char_to_bool_spec|]. split; [|split; [|repeat split]].
  - intros c old s Hc Hroom.
    pose proof (read_at_Some_nonneg _ _ _ Hc) as Hpos.
    unfold unpack_bool, sizeofBool.
    rewrite advance_within by lia.
    simpl. rewrite Z.add_0_r, Hc. reflexivity.
  - intros pre mid post out s Hbuf Hix Hout Hroom.
    unfold unpack_bool, sizeofBool.
    rewrite advance_within by lia. rewrite Nat2Z.id.
    pose proof (unpack_bool_loop_segment mid [] out [] pre post (d_buffer_index s)
                  (advanced (Z.of_nat (length mid)) s) Hout Hbuf) as Hloop.
    simpl in Hloop. change (Z.of_nat 0) with 0 in Hloop.
    rewrite !app_nil_r in Hloop. now rewrite Hloop by lia.
Qed.

Lemma unpack_bool_true_iff_byte_is_one_witness :
  let s := mkStream 2 2 1 [x01; xff] in
  let t := mkStream 4 4 0 [x01; x02; x00; xff] in
  (read_at (d_buffer s) (d_buffer_index s) = Some xff /\
   d_buffer_index s + 1 <= d_buffer_size s) /\
  unpack_bool [true] 1 s = Returned [char_to_bool xff] (advanced 1 s) /\
  unpack_bool [true; true; true; true] 4 t
  = Returned [true; false; false; false] (advanced 4 t).
Proof.
  intros s t.
  assert (read_at (d_buffer s) (d_buffer_index s) = Some xff) as H1 by reflexivity.
  assert (d_buffer_index s + 1 <= d_buffer_size s) as H2 by (vm_compute; discriminate).
  assert (d_buffer_index t + 4 <= d_buffer_size t) as H3 by (vm_compute; discriminate).
  split; [split; assumption|]. split.
  - exact (proj1 (proj2 unpack_bool_true_iff_byte_is_one) xff true s H1 H2).
  - exact (proj1 (proj2 (proj2 unpack_bool_true_iff_byte_is_one))
             [] [x01; x02; x00; xff] [] [true; true; true; true] t
             eq_refl eq_refl eq_refl H3).
Defined.

(** ** The high-water mark along a run *)

Lemma exec_op_size o s :
  d_current_size s <= d_current_size (stream_of (exec_op o s)).
Proof.
  destruct o as [c|index|]; simpl; try lia.
  rewrite stream_of_map.
  destruct (exec_call_advance c s) as ((_ & Hhw & _) & _).
  rewrite Hhw. simpl. lia.
Qed.

(** One operation whose seek, if any, stays within the high-water mark
    keeps the cursor below the mark and raises the mark to the new
    cursor at most. *)
Lemma exec_op_mark o s :
  d_buffer_index s <= d_current_size s ->
  seeks_within_size [o] s = true ->
  let s' := stream_of (exec_op o s) in
  d_current_size s' = Z.max (d_current_size s) (d_buffer_index s').
Proof.
  intros Hix Hseek. destruct o as [c|index|]; simpl in *.
  - rewrite stream_of_map.
    destruct (exec_call_advance c s) as ((_ & Hhw & Hi) & _).
    rewrite Hhw, Hi. reflexivity.
  - rewrite andb_true_iff, Z.leb_le in Hseek. lia.
  - rewrite andb_true_iff, Z.leb_le in Hseek. lia.
Qed.

Lemma foldr_max_swap (l : list Z) : forall a b,
  Z.max a (foldr Z.max b l) = Z.max b (foldr Z.max a l).
Proof.
  induction l as [|x l IH]; intros a b; simpl; [lia|].
  specialize (IH a b). lia.
Qed.

Lemma foldr_max_base (l : list Z) b : b <= foldr Z.max b l.
Proof. induction l as [|x l IH]; simpl; lia. Qed.

Lemma last_cons_default {A} (l : list A) (a d : A) :
  List.last (a :: l) d = List.last l a.
Proof.
  revert a d. induction l as [|x l IH]; intros a d; [reflexivity|].
  change (List.last (a :: x :: l) d) with (List.last (x :: l) d).
  now rewrite !(IH x).
Qed.

Lemma final_cons o ops s :
  final (o :: ops) s =
  if is_returned (exec_op o s) then final ops (stream_of (exec_op o s))
  else stream_of (exec_op o s).
Proof.
  unfold final. cbn [history]. rewrite last_cons_default.
  now destruct (is_returned (exec_op o s)).
Qed.

Lemma seeks_within_size_cons o ops s :
  seeks_within_size (o :: ops) s = true ->
  seeks_within_size [o] s = true /\
  (is_returned (exec_op o s) = true ->
   seeks_within_size ops (stream_of (exec_op o s)) = true).
Proof.
  cbn [seeks_within_size]. rewrite !andb_true_iff.
  intros [H1 H2]. split.
  - split; [exact H1|]. now destruct (is_returned (exec_op o s)).
  - intros Hr. now rewrite Hr in H2.
Qed.

Lemma mark_is_max_cursor (ops : list op) : forall s,
  d_buffer_index s <= d_current_size s ->
  seeks_within_size ops s = true ->
  d_current_size (final ops s) = Z.max (d_current_size s) (max_cursor ops s).
Proof.
  unfold max_cursor.
  induction ops as [|o ops IH]; intros s Hix Hseek.
  - unfold final. simpl. lia.
  - apply seeks_within_size_cons in Hseek as [Ho Hrest].
    pose proof (exec_op_mark o s Hix Ho) as Hmark. simpl in Hmark.
    rewrite final_cons. cbn [history fmap list_fmap foldr].
    destruct (is_returned (exec_op o s)) eqn:Hr.
    + rewrite IH by (try lia; auto).
      pose proof (foldr_max_swap
                    (d_buffer_index <$> history ops (stream_of (exec_op o s)))
                    (d_buffer_index (stream_of (exec_op o s))) (d_buffer_index s)) as Hsw.
      pose proof (foldr_max_base
                    (d_buffer_index <$> history ops (stream_of (exec_op o s)))
                    (d_buffer_index (stream_of (exec_op o s)))) as Hb.
      change (list_fmap _ _ d_buffer_index ?l) with (d_buffer_index <$> l).
      lia.
    + simpl. lia.
Qed.

Lemma history_sizes_sorted (ops : list op) : forall s,
  StronglySorted Z.le (d_current_size <$> s :: history ops s).
Proof.
  induction ops as [|o ops IH]; intros s.
  - repeat constructor.
  - cbn [history].
    set (s1 := stream_of (exec_op o s)).
    assert (StronglySorted Z.le
              (d_current_size <$>
                 s1 :: (if is_returned (exec_op o s) then history ops s1 else []))) as Htail
      by (destruct (is_returned (exec_op o s)); [apply IH|repeat constructor]).
    rewrite fmap_cons. constructor; [exact Htail|].
    rewrite fmap_cons in Htail |- *.
    apply StronglySorted_inv in Htail as [_ Hall].
    pose proof (exec_op_size o s) as Hstep. fold s1 in Hstep.
    constructor; [exact Hstep|].
    eapply List.Forall_impl; [|exact Hall]. intros z Hz. simpl in Hz. lia.
Qed.

(** C4, as stated, fails: setCurrentIndex stores the index and leaves the
    high-water mark alone, so a seek past the mark is a cursor value the
    mark never sees.  On a fresh 16-byte stream, pack one int and then
    setCurrentIndex(8): the cursor has reached 8, getCurrentSize() is 4. *)
Lemma forward_seek_is_not_counted :
  let s0 := mkStream 16 0 0 (replicate 16 x00) in
  let ops := [Call (PackRaw KInt (int_repr 5) 1); SetCurrentIndex 8] in
  FixedSizedStream_new 16 = Some s0 /\
  getCurrentIndex (final ops s0) = 8 /\
  max_cursor ops s0 = 8 /\
  getCurrentSize (final ops s0) = 4 /\
  getCurrentSize (final ops s0) <> max_cursor ops s0.
Proof.
  intros s0 ops.
  split; [reflexivity|].
  split; [vm_compute; reflexivity|].
  split; [vm_compute; reflexivity|].
  split; [vm_compute; reflexivity|].
  vm_compute. discriminate.
Qed.

(** C4, amended: across pack, unpack, setCurrentIndex and resetIndex the
    high-water mark never decreases; and after a run that starts with
    the mark at the cursor (as after construction) and in which no
    setCurrentIndex is given an index above the current mark,
    getCurrentSize() equals the largest cursor value of the run,
    whatever rewinds happen in between. *)
Theorem high_water_mark_is_max_cursor_up_to_forward_seeks :
  (forall ops s, StronglySorted Z.le (d_current_size <$> s :: history ops s)) /\
  (forall ops s,
     d_current_size s = d_buffer_index s ->
     seeks_within_size ops s = true ->
     getCurrentSize (final ops s) = max_cursor ops s).
Proof.
  split; [exact history_sizes_sorted|].
  intros ops s Hstart Hseek.
  unfold getCurrentSize.
  rewrite mark_is_max_cursor by (try assumption; lia).
  pose proof (foldr_max_base (d_buffer_index <$> history ops s) (d_buffer_index s)) as Hb.
  unfold max_cursor. lia.
Qed.

Lemma high_water_mark_is_max_cursor_up_to_forward_seeks_witness :
  let s := mkStream 8 0 0 (replicate 8 x00) in
  let ops := [Call (PackRaw KInt (int_repr 5) 1);
              SetCurrentIndex 0;
              Call (PackRaw KInt (int_repr 9) 1);
              ResetIndex;
              Call (UnpackRaw KInt (int_repr 0) 1)] in
  (d_current_size s = d_buffer_index s /\ seeks_within_size ops s = true) /\
  getCurrentSize (final ops s) = max_cursor ops s.
Proof.
  intros s ops.
  assert (d_current_size s = d_buffer_index s) as H1 by reflexivity.
  assert (seeks_within_size ops s = true) as H2 by (vm_compute; reflexivity).
  split; [split; assumption|].
  exact (proj2 high_water_mark_is_max_cursor_up_to_forward_seeks ops s H1 H2).
Defined.

(** * More on the stream: frames, invariants, edge cases, composition *)

(** ** Byte counts *)

Lemma requested_bytes_exact c :
  CInt.in_range (packed_width c * count_of c) ->
  requested_bytes c = packed_width c * count_of c.
Proof.
  intros Hr. destruct c as [data n|data n|k data n|k data n]; simpl in *;
    unfold sizeofBool in *; try lia; now apply of_to_unsigned.
Qed.

Lemma to_unsigned_nonneg x : 0 <= CInt.to_unsigned x.
Proof.
  unfold CInt.to_unsigned, CInt.UINT_MODULUS.
  pose proof (Z.mod_pos_bound x 4294967296 eq_refl). lia.
Qed.


(** ** What a call leaves of the buffer *)

Lemma read_at_insert_ne {A} (l : list A) (i j : Z) (x : A) :
  0 <= i -> j <> i -> read_at (<[Z.to_nat i := x]> l) j = read_at l j.
Proof.
  intros Hi Hne. unfold read_at.
  destruct (Z.ltb_spec j 0); [reflexivity|].
  apply list_lookup_insert_ne. lia.
Qed.

Lemma write_at_Some {A} (l l' : list A) (i : Z) (x : A) :
  write_at l i x = Some l' ->
  0 <= i < Z.of_nat (length l) /\ l' = <[Z.to_nat i := x]> l.
Proof.
  unfold write_at.
  destruct (Z.leb_spec 0 i); simpl; [|discriminate].
  destruct (Z.ltb_spec i (Z.of_nat (length l))); [|discriminate].
  intros [= <-]. split; [lia|reflexivity].
Qed.

Lemma pack_bool_loop_outside todo : forall i data ptr s,
  let s' := stream_of (pack_bool_loop todo i data ptr s) in
  length (d_buffer s') = length (d_buffer s) /\
  forall j, j < ptr + i \/ ptr + i + Z.of_nat todo <= j ->
            read_at (d_buffer s') j = read_at (d_buffer s) j.
Proof.
  induction todo as [|todo IH]; intros i data ptr s; cbn [pack_bool_loop].
  - simpl. auto.
  - destruct (read_at data i) as [b|]; [|simpl; auto].
    destruct (write_at (d_buffer s) (ptr + i) (bool_to_char b)) as [buf|] eqn:Hw;
      [|simpl; auto].
    apply write_at_Some in Hw as [Hin ->].
    destruct (IH (i + 1) data ptr
                (with_buffer s (<[Z.to_nat (ptr + i) := bool_to_char b]> (d_buffer s))))
      as [Hlen Hout].
    simpl in Hlen, Hout. rewrite length_insert in Hlen.
    split; [exact Hlen|].
    intros j Hj. rewrite Hout by lia.
    apply read_at_insert_ne; lia.
Qed.

Lemma lookup_outside_middle {A} (pre mid mid' post : list A) (j : nat) :
  length mid' = length mid ->
  (j < length pre \/ length pre + length mid <= j)%nat ->
  (pre ++ mid' ++ post) !! j = (pre ++ mid ++ post) !! j.
Proof.
  intros Hlen [Hj|Hj].
  - now rewrite !lookup_app_l by lia.
  - rewrite !lookup_app_r by lia. now rewrite Hlen.
Qed.

Lemma memcpy_outside (dst src : list byte) ptr count :
  0 <= count ->
  range_inside ptr count (length dst) = true ->
  range_inside 0 count (length src) = true ->
  length (memcpy dst ptr src count) = length dst /\
  forall j, j < ptr \/ ptr + count <= j ->
            read_at (memcpy dst ptr src count) j = read_at dst j.
Proof.
  intros Hc Hdst Hsrc.
  destruct (Z.eq_dec count 0) as [->|Hpos].
  - unfold memcpy. rewrite Z.add_0_r. simpl. rewrite take_drop. auto.
  - unfold range_inside in Hdst, Hsrc.
    destruct (Z.leb_spec count 0); [lia|]. simpl in Hdst, Hsrc.
    apply andb_true_iff in Hdst as [Hlo Hhi]. apply Z.leb_le in Hlo, Hhi, Hsrc.
    set (P := Z.to_nat ptr). set (C := Z.to_nat count).
    assert (dst = take P dst ++ take C (drop P dst) ++ drop C (drop P dst)) as Hsplit
      by now rewrite !take_drop.
    assert (length (take P dst) = P) as HP by (rewrite length_take; subst P; lia).
    assert (length (take C (drop P dst)) = C) as HC
      by (rewrite length_take, length_drop; subst P C; lia).
    assert (length (take C src) = C) as HS by (rewrite length_take; subst C; lia).
    assert (memcpy dst ptr src count
            = take P dst ++ take C src ++ drop C (drop P dst)) as Hm.
    { rewrite Hsplit at 1.
      rewrite (memcpy_segment _ _ _ src) by (rewrite ?HP, ?HC; subst P C; lia).
      now rewrite HC. }
    rewrite Hm. split.
    + rewrite !length_app, HP, HS, !length_drop. subst P C. lia.
    + intros j Hj. unfold read_at.
      destruct (Z.ltb_spec j 0); [reflexivity|].
      rewrite (lookup_outside_middle (take P dst) (take C (drop P dst)) (take C src)
                 (drop C (drop P dst)) (Z.to_nat j));
        [now rewrite !take_drop|lia|rewrite HP, HC; subst P C; lia].
Qed.

(** The buffer after any call, whatever its outcome: as long as before,
    and the same outside the [touched] bytes from the old cursor. *)
Lemma exec_call_outside c s (touched : Z) :
  touched = match c with
            | PackBool _ n | UnpackBool _ n => Z.max 0 n
            | PackRaw k _ n | UnpackRaw k _ n => CInt.to_unsigned (width k * n)
            end ->
  let s' := stream_of (exec_call c s) in
  length (d_buffer s') = length (d_buffer s) /\
  forall j, j < d_buffer_index s \/ d_buffer_index s + touched <= j ->
            read_at (d_buffer s') j = read_at (d_buffer s) j.
Proof.
  intros ->.
  destruct c as [data n|data n|k data n|k data n]; cbn [exec_call];
    rewrite stream_of_map, ?pack_raw_unfold, ?unpack_raw_unfold;
    unfold pack_bool, unpack_bool, __pack, __unpack;
    match goal with
    | |- context [getPointerAndAdvanceCursor ?b s] =>
        destruct (advance_cases b s) as [(_ & ->)|[(_ & _ & _ & ->)|(_ & _ & ->)]]
    end; try (simpl; auto; fail).
  - destruct (pack_bool_loop_outside (Z.to_nat n) 0 data (d_buffer_index s)
                (advanced (sizeofBool n) s)) as [Hlen Hout].
    simpl in Hlen, Hout. split; [exact Hlen|].
    intros j Hj. apply Hout. lia.
  - destruct (unpack_bool_loop_frame (Z.to_nat n) 0 data (d_buffer_index s)
                (advanced (sizeofBool n) s)) as [_ Hs].
    simpl in Hs. rewrite Hs. simpl. auto.
  - destruct (range_inside (d_buffer_index s) _ _) eqn:Hb; simpl; [|auto].
    destruct (range_inside 0 _ (length data)) eqn:Hd; simpl; [|auto].
    apply memcpy_outside; auto using to_unsigned_nonneg.
  - destruct (range_inside (d_buffer_index s) _ _); simpl; [|auto].
    destruct (range_inside 0 _ (length data)); simpl; auto.
Qed.

(** X1: a pack changes no byte of the buffer outside the bytes it was
    asked to write, [cursor, cursor + width x n), whether it returns,
    raises the overrun error or stops at a bad access. *)
Theorem pack_touches_only_its_bytes :
  (forall data n s j,
     j < d_buffer_index s \/ d_buffer_index s + Z.max 0 n <= j ->
     read_at (d_buffer (stream_of (pack_bool data n s))) j = read_at (d_buffer s) j) /\
  (forall k data n s j,
     0 <= width k * n <= CInt.INT_MAX ->
     j < d_buffer_index s \/ d_buffer_index s + width k * n <= j ->
     read_at (d_buffer (stream_of (pack_raw k data n s))) j = read_at (d_buffer s) j).
Proof.
  split.
  - intros data n s j Hj.
    destruct (exec_call_outside (PackBool data n) s _ eq_refl) as [_ Hout].
    cbn [exec_call] in Hout. rewrite stream_of_map in Hout. now apply Hout.
  - intros k data n s j Hn Hj.
    destruct (exec_call_outside (PackRaw k data n) s _ eq_refl) as [_ Hout].
    cbn [exec_call] in Hout. rewrite stream_of_map in Hout. apply Hout.
    now rewrite (proj1 (to_unsigned_small _ Hn)).
Qed.

Lemma pack_touches_only_its_bytes_witness :
  let s := mkStream 12 8 4 (int_repr 1 ++ int_repr 2 ++ int_repr 3) in
  (0 <= width KInt * 1 <= CInt.INT_MAX /\ (8 < d_buffer_index s \/ d_buffer_index s + width KInt * 1 <= 8)) /\
  read_at (d_buffer (stream_of (pack_raw KInt (int_repr 9) 1 s))) 8 = read_at (d_buffer s) 8.
Proof.
  intros s.
  assert (0 <= width KInt * 1 <= CInt.INT_MAX) as H1 by (vm_compute; split; discriminate).
  assert (8 < d_buffer_index s \/ d_buffer_index s + width KInt * 1 <= 8) as H2
    by (right; vm_compute; discriminate).
  split; [split; assumption|].
  exact (proj2 pack_touches_only_its_bytes KInt (int_repr 9) 1 s 8 H1 H2).
Defined.

(** X2: no call grows or shrinks the stream: after any pack or unpack,
    whatever its outcome, the buffer has as many bytes as before and the
    capacity is unchanged. *)
Theorem call_keeps_buffer_length (c : call) (s : FixedSizedStream) :
  length (d_buffer (stream_of (exec_call c s))) = length (d_buffer s) /\
  d_buffer_size (stream_of (exec_call c s)) = d_buffer_size s.
Proof.
  split.
  - exact (proj1 (exec_call_outside c s _ eq_refl)).
  - destruct (exec_call_advance c s) as ((Hsz & _ & _) & _). exact Hsz.
Qed.

Lemma reachable_length (s : FixedSizedStream) :
  reachable s -> d_buffer_size s = Z.of_nat (length (d_buffer s)).
Proof.
  induction 1 as [bytes s Hnew|buffer bytes s Hwrap|c s a s' Hs IH Hcall|s Hs IH].
  - unfold FixedSizedStream_new in Hnew.
    destruct (Z.ltb_spec bytes 0); [discriminate|].
    injection Hnew as <-. simpl. rewrite length_replicate. lia.
  - unfold FixedSizedStream_wrap in Hwrap.
    destruct (Z.ltb_spec bytes 0); simpl in Hwrap; [discriminate|].
    destruct (Z.ltb_spec (Z.of_nat (length buffer)) bytes); [discriminate|].
    injection Hwrap as <-. simpl. rewrite length_take. lia.
  - destruct (exec_call_outside c s _ eq_refl) as [Hlen _].
    destruct (exec_call_advance c s) as ((Hsz & _ & _) & _).
    rewrite Hcall in Hlen, Hsz. simpl in Hlen, Hsz. rewrite Hsz, Hlen. exact IH.
  - exact IH.
Qed.

(** X4: every stream a program reaches from a constructor by returning
    packs and unpacks and by resetIndex has exactly d_buffer_size bytes
    in its buffer, and 0 <= high-water mark, cursor <= high-water mark
    <= capacity. *)
Theorem reachable_stream_invariant (s : FixedSizedStream) :
  reachable s ->
  d_buffer_size s = Z.of_nat (length (d_buffer s)) /\
  0 <= getCurrentSize s /\
  getCurrentIndex s <= getCurrentSize s /\
  getCurrentSize s <= d_buffer_size s.
Proof.
  intros Hs. split; [exact (reachable_length s Hs)|exact (reachable_ordered s Hs)].
Qed.

Lemma reachable_stream_invariant_witness :
  let s := mkStream 4 4 4 (int_repr 1) in
  reachable s /\
  d_buffer_size s = Z.of_nat (length (d_buffer s)) /\
  0 <= getCurrentSize s /\
  getCurrentIndex s <= getCurrentSize s /\
  getCurrentSize s <= d_buffer_size s.
Proof.
  intros s.
  assert (reachable s) as Hs.
  { apply (reachable_call (PackRaw KInt (int_repr 1) 1)
             (mkStream 4 0 0 (replicate 4 x00)) (ByteArray (int_repr 1))).
    - apply (reachable_new 4). reflexivity.
    - vm_compute. reflexivity. }
  split; [exact Hs|].
  exact (reachable_stream_invariant s Hs).
Defined.

(** ** Memory safety of the bounds check *)

Lemma write_at_inside {A} (l : list A) (i : Z) (x : A) :
  0 <= i < Z.of_nat (length l) -> write_at l i x = Some (<[Z.to_nat i := x]> l).
Proof.
  intros Hi. unfold write_at.
  destruct (Z.leb_spec 0 i); [|lia].
  destruct (Z.ltb_spec i (Z.of_nat (length l))); [reflexivity|lia].
Qed.

Lemma read_at_inside {A} (l : list A) (i : Z) :
  0 <= i < Z.of_nat (length l) -> is_Some (read_at l i).
Proof.
  intros Hi. unfold read_at.
  destruct (Z.ltb_spec i 0); [lia|].
  apply lookup_lt_is_Some. lia.
Qed.

Lemma pack_bool_loop_inside todo : forall i data ptr s,
  0 <= ptr + i ->
  ptr + i + Z.of_nat todo <= Z.of_nat (length (d_buffer s)) ->
  is_outside_buffer (pack_bool_loop todo i data ptr s) = false.
Proof.
  induction todo as [|todo IH]; intros i data ptr s Hlo Hhi; cbn [pack_bool_loop];
    [reflexivity|].
  destruct (read_at data i) as [b|]; [|reflexivity].
  rewrite write_at_inside by lia.
  apply IH; [lia|]. simpl. rewrite length_insert. lia.
Qed.

Lemma unpack_bool_loop_inside todo : forall i data ptr s,
  0 <= ptr + i ->
  ptr + i + Z.of_nat todo <= Z.of_nat (length (d_buffer s)) ->
  is_outside_buffer (unpack_bool_loop todo i data ptr s) = false.
Proof.
  induction todo as [|todo IH]; intros i data ptr s Hlo Hhi; cbn [unpack_bool_loop];
    [reflexivity|].
  destruct (read_at_inside (d_buffer s) (ptr + i)) as [c ->]; [lia|].
  destruct (write_at data i (char_to_bool c)); [|reflexivity].
  apply IH; lia.
Qed.

Lemma width_pos k : 0 < width k.
Proof. now destruct k. Qed.

Lemma is_outside_buffer_map {A B} (f : A -> B) (o : outcome A) :
  is_outside_buffer (map_outcome f o) = is_outside_buffer o.
Proof. now destruct o as [| |[]]. Qed.

Lemma is_overflow_map {A B} (f : A -> B) (o : outcome A) :
  is_overflow (map_outcome f o) = is_overflow o.
Proof. now destruct o as [| |[]]. Qed.

Lemma pack_bool_loop_no_overflow todo : forall i data ptr s,
  is_overflow (pack_bool_loop todo i data ptr s) = false.
Proof.
  induction todo as [|todo IH]; intros i data ptr s; cbn [pack_bool_loop]; [reflexivity|].
  destruct (read_at data i); [|reflexivity].
  destruct (write_at _ _ _); [apply IH|reflexivity].
Qed.

Lemma unpack_bool_loop_no_overflow todo : forall i data ptr s,
  is_overflow (unpack_bool_loop todo i data ptr s) = false.
Proof.
  induction todo as [|todo IH]; intros i data ptr s; cbn [unpack_bool_loop]; [reflexivity|].
  destruct (read_at _ _); [|reflexivity].
  destruct (write_at _ _ _); [apply IH|reflexivity].
Qed.

(** X5: on a stream whose buffer has d_buffer_size bytes, with the
    high-water mark within the capacity and a cursor that is not
    negative, a pack or unpack of n >= 0 elements whose new cursor is an
    int (the addition does not overflow) never reads or writes outside
    the buffer: it returns, raises the overrun error, or stops at the
    caller's own array being too short. *)
Theorem bounds_check_keeps_accesses_inside (c : call) (s : FixedSizedStream) :
  d_buffer_size s = Z.of_nat (length (d_buffer s)) ->
  d_current_size s <= d_buffer_size s ->
  0 <= d_buffer_index s ->
  0 <= count_of c ->
  CInt.in_range (packed_width c * count_of c) ->
  CInt.in_range (d_buffer_index s + packed_width c * count_of c) ->
  is_outside_buffer (exec_call c s) = false /\
  is_overflow (exec_call c s) = false.
Proof.
  intros Hlen Hhw Hix Hn Hr Hsum.
  destruct c as [data n|data n|k data n|k data n]; simpl in Hn, Hr, Hsum;
    cbn [exec_call]; rewrite is_outside_buffer_map, is_overflow_map.
  - unfold pack_bool, sizeofBool in *. rewrite Z.mul_1_l in Hsum.
    pose proof (no_overflow_in_range n s Hsum) as Hno.
    destruct (advance_cases n s) as [(Hov & _)|[(_ & _ & _ & ->)|(_ & Hle & ->)]];
      [congruence|split; reflexivity|].
    split; [apply pack_bool_loop_inside; simpl; lia|apply pack_bool_loop_no_overflow].
  - unfold unpack_bool, sizeofBool in *. rewrite Z.mul_1_l in Hsum.
    pose proof (no_overflow_in_range n s Hsum) as Hno.
    destruct (advance_cases n s) as [(Hov & _)|[(_ & _ & _ & ->)|(_ & Hle & ->)]];
      [congruence|split; reflexivity|].
    split; [apply unpack_bool_loop_inside; simpl; lia|apply unpack_bool_loop_no_overflow].
  - assert (0 <= width k * n <= CInt.INT_MAX) as Hw
      by (pose proof (width_pos k); unfold CInt.in_range in Hr; nia).
    rewrite pack_raw_unfold. unfold __pack.
    destruct (to_unsigned_small _ Hw) as [Eu Eo]. rewrite Eu, Eo.
    pose proof (no_overflow_in_range _ s Hsum) as Hno.
    destruct (advance_cases (width k * n) s)
      as [(Hov & _)|[(_ & _ & _ & ->)|(_ & Hle & ->)]];
      [congruence|split; reflexivity|].
    simpl. rewrite range_inside_true by lia. simpl.
    now destruct (range_inside 0 _ _).
  - assert (0 <= width k * n <= CInt.INT_MAX) as Hw
      by (pose proof (width_pos k); unfold CInt.in_range in Hr; nia).
    rewrite unpack_raw_unfold. unfold __unpack.
    destruct (to_unsigned_small _ Hw) as [Eu Eo]. rewrite Eu, Eo.
    pose proof (no_overflow_in_range _ s Hsum) as Hno.
    destruct (advance_cases (width k * n) s)
      as [(Hov & _)|[(_ & _ & _ & ->)|(_ & Hle & ->)]];
      [congruence|split; reflexivity|].
    simpl. rewrite range_inside_true by lia. simpl.
    now destruct (range_inside 0 _ _).
Qed.

Lemma bounds_check_keeps_accesses_inside_witness :
  let s := mkStream 8 4 2 (int_repr 5 ++ replicate 4 x00) in
  let c := PackRaw KInt (int_repr 9) 1 in
  (d_buffer_size s = Z.of_nat (length (d_buffer s)) /\
   d_current_size s <= d_buffer_size s /\
   0 <= d_buffer_index s /\
   0 <= count_of c) /\
  CInt.in_range (packed_width c * count_of c) /\
  CInt.in_range (d_buffer_index s + packed_width c * count_of c) /\
  is_outside_buffer (exec_call c s) = false /\
  is_overflow (exec_call c s) = false.
Proof.
  intros s c.
  assert (d_buffer_size s = Z.of_nat (length (d_buffer s))) as H1 by reflexivity.
  assert (d_current_size s <= d_buffer_size s) as H2 by (vm_compute; discriminate).
  assert (0 <= d_buffer_index s) as H3 by (vm_compute; discriminate).
  assert (0 <= count_of c) as H4 by (vm_compute; discriminate).
  assert (CInt.in_range (packed_width c * count_of c)) as H5
    by (vm_compute; split; discriminate).
  assert (CInt.in_range (d_buffer_index s + packed_width c * count_of c)) as H6
    by (vm_compute; split; discriminate).
  split; [repeat split; assumption|].
  split; [exact H5|]. split; [exact H6|].
  exact (bounds_check_keeps_accesses_inside c s H1 H2 H3 H4 H5 H6).
Defined.

(** ** Counts that are zero or negative *)

Lemma memcpy_zero (dst src : list byte) ptr : memcpy dst ptr src 0 = dst.
Proof. unfold memcpy. rewrite Z.add_0_r. simpl. apply take_drop. Qed.

Lemma advanced_same_buffer bytes s : with_buffer (advanced bytes s) (d_buffer s) = advanced bytes s.
Proof. reflexivity. Qed.



(** X7: a boolean pack or unpack with a negative count, on a stream whose
    cursor is within the high-water mark, and whose new cursor is an int
    (the addition does not overflow), returns without error and without
    touching the buffer or the caller's array: it only moves the cursor
    back by |n|. *)
Theorem negative_count_bool_rewinds data n s :
  n < 0 ->
  d_buffer_index s <= d_current_size s ->
  CInt.in_range (d_buffer_index s + n) ->
  pack_bool data n s = Returned data (setCurrentIndex (d_buffer_index s + n) s) /\
  unpack_bool data n s = Returned data (setCurrentIndex (d_buffer_index s + n) s).
Proof.
  intros Hn Hix Hsum.
  pose proof (no_overflow_in_range _ s Hsum) as Hno.
  assert (advanced n s = setCurrentIndex (d_buffer_index s + n) s) as E
    by (unfold advanced, setCurrentIndex; f_equal; lia).
  unfold pack_bool, unpack_bool, sizeofBool.
  destruct (advance_cases n s) as [(Hov & _)|[(_ & H & _ & _)|(_ & _ & ->)]];
    [congruence|lia|].
  replace (Z.to_nat n) with O by lia. simpl. now rewrite E.
Qed.

Lemma negative_count_bool_rewinds_witness :
  let s := mkStream 8 4 4 (int_repr 5 ++ replicate 4 x00) in
  (-3 < 0 /\ d_buffer_index s <= d_current_size s) /\
  CInt.in_range (d_buffer_index s + -3) /\
  pack_bool [true] (-3) s = Returned [true] (setCurrentIndex (d_buffer_index s + -3) s) /\
  unpack_bool [true] (-3) s = Returned [true] (setCurrentIndex (d_buffer_index s + -3) s).
Proof.
  intros s.
  assert (-3 < 0) as H1 by reflexivity.
  assert (d_buffer_index s <= d_current_size s) as H2 by (vm_compute; discriminate).
  assert (CInt.in_range (d_buffer_index s + -3)) as H3 by (vm_compute; split; discriminate).
  split; [split; assumption|]. split; [exact H3|].
  exact (negative_count_bool_rewinds [true] (-3) s H1 H2 H3).
Defined.

(** X8: a pack or unpack of zero elements copies nothing and leaves the
    cursor where it is.  It still goes through the bounds check: it
    returns when the cursor is within the high-water mark or within the
    capacity (raising the mark to the cursor if the cursor was above
    it), and raises the overrun error when the cursor has been set past
    both. *)
Theorem zero_count_call (c : call) (s : FixedSizedStream) :
  count_of c = 0 ->
  (d_buffer_index s <= d_current_size s \/ d_buffer_index s <= d_buffer_size s ->
   exec_call c s = Returned (argument c) (advanced 0 s)) /\
  (d_buffer_index s > d_current_size s /\ d_buffer_index s > d_buffer_size s ->
   exec_call c s = BufferOverrun (argument c) (advanced 0 s)).
Proof.
  intros Hn.
  destruct c as [data n|data n|k data n|k data n]; simpl in Hn; subst n;
    cbn [exec_call argument]; rewrite ?pack_raw_unfold, ?unpack_raw_unfold;
    unfold pack_bool, unpack_bool, __pack, __unpack, sizeofBool;
    rewrite ?Z.mul_0_r;
    change (CInt.to_unsigned 0) with 0; change (CInt.of_unsigned 0) with 0;
    (split; intros H;
     (destruct (advance_cases 0 s) as [(Hov & _)|[(_ & H1 & H2 & ->)|(_ & Hno & ->)]];
      [rewrite (no_overflow_zero 0 s eq_refl) in Hov; discriminate|try lia|try lia]));
    simpl; try reflexivity.
  - now rewrite memcpy_zero.
Qed.

Lemma zero_count_call_witness :
  let s := setCurrentIndex 9 (mkStream 8 4 4 (int_repr 5 ++ replicate 4 x00)) in
  let c := PackRaw KChar [] 0 in
  (count_of c = 0 /\ d_buffer_index s > d_current_size s /\ d_buffer_index s > d_buffer_size s) /\
  exec_call c s = BufferOverrun (argument c) (advanced 0 s).
Proof.
  intros s c.
  assert (count_of c = 0) as H1 by reflexivity.
  assert (d_buffer_index s > d_current_size s /\ d_buffer_index s > d_buffer_size s) as H2
    by (split; reflexivity).
  split; [split; assumption|].
  exact (proj2 (zero_count_call c s H1) H2).
Defined.

(** ** Packing and unpacking at a chosen offset *)

Lemma split_at_cursor (buf : list byte) (i len : Z) :
  0 <= i -> 0 <= len -> i + len <= Z.of_nat (length buf) ->
  exists pre mid post,
    buf = pre ++ mid ++ post /\
    Z.of_nat (length pre) = i /\ Z.of_nat (length mid) = len.
Proof.
  intros Hi Hl Hfit.
  exists (take (Z.to_nat i) buf), (take (Z.to_nat len) (drop (Z.to_nat i) buf)),
    (drop (Z.to_nat len) (drop (Z.to_nat i) buf)).
  split; [now rewrite !take_drop|].
  rewrite !length_take, length_drop. lia.
Qed.

(** Pack [p] at offset [i], seek back, unpack with the mirror of any pack
    call [q] that would have written the same bytes. *)
Lemma pack_then_unpack_at p q u s i :
  pack_of p -> pack_of q -> mirrors q u -> wire q = wire p ->
  buffer_ok s ->
  0 <= i -> i + Z.of_nat (length (wire p)) <= d_buffer_size s ->
  exists s1 s2,
    exec_call p (setCurrentIndex i s) = Returned (argument p) s1 /\
    exec_call u (setCurrentIndex i s1) = Returned (argument q) s2 /\
    d_buffer s2 = d_buffer s1.
Proof.
  intros Hp Hq Hu Hw [Hlen Hmax] Hi Hfit.
  destruct (split_at_cursor (d_buffer s) i (Z.of_nat (length (wire p))))
    as (pre & mid & post & Hbuf & Hpre & Hmid); [lia|lia|lia|].
  destruct (pack_call_segment p (setCurrentIndex i s) pre mid post Hp Hbuf)
    as (s1 & E1 & Hbuf1 & _ & Hsz1); [simpl; lia|lia|simpl; lia|simpl; lia|].
  simpl in Hsz1. rewrite <- Hw in Hbuf1.
  destruct (unpack_call_segment q u (setCurrentIndex i s1) pre post Hq Hu Hbuf1)
    as (s2 & E2 & Hbuf2 & _);
    [simpl; lia|simpl; rewrite Hw; lia|simpl; lia|].
  exists s1, s2. auto.
Qed.

(** X9: cursor addressing.  setCurrentIndex(i); pack; setCurrentIndex(i);
    unpack gives back the packed array, for every kind and count and every
    offset i >= 0 with i + bytes <= capacity, whatever the buffer held
    there before and wherever the cursor and the high-water mark were. *)
Theorem seek_pack_seek_unpack_roundtrip (p u : call) (s : FixedSizedStream) (i : Z) :
  pack_of p -> mirrors p u ->
  buffer_ok s ->
  0 <= i -> i + Z.of_nat (length (wire p)) <= d_buffer_size s ->
  exists s1 s2,
    exec_call p (setCurrentIndex i s) = Returned (argument p) s1 /\
    exec_call u (setCurrentIndex i s1) = Returned (argument p) s2.
Proof.
  intros Hp Hu Hok Hi Hfit.
  destruct (pack_then_unpack_at p p u s i Hp Hp Hu eq_refl Hok Hi Hfit)
    as (s1 & s2 & E1 & E2 & _).
  exists s1, s2. auto.
Qed.

Lemma seek_pack_seek_unpack_roundtrip_witness :
  let s := mkStream 8 8 8 (int_repr 5 ++ int_repr 6) in
  let p := PackRaw KInt (int_repr 9) 1 in
  let u := UnpackRaw KInt (int_repr 0) 1 in
  (pack_of p /\ mirrors p u /\ buffer_ok s /\
   0 <= 4 /\ 4 + Z.of_nat (length (wire p)) <= d_buffer_size s) /\
  exists s1 s2,
    exec_call p (setCurrentIndex 4 s) = Returned (argument p) s1 /\
    exec_call u (setCurrentIndex 4 s1) = Returned (argument p) s2.
Proof.
  intros s p u.
  assert (pack_of p) as H1 by (split; vm_compute; [discriminate|reflexivity]).
  assert (mirrors p u) as H2 by (repeat split).
  assert (buffer_ok s) as H3 by (split; vm_compute; [reflexivity|discriminate]).
  assert (0 <= 4) as H4 by discriminate.
  assert (4 + Z.of_nat (length (wire p)) <= d_buffer_size s) as H5
    by (vm_compute; discriminate).
  split; [repeat split; assumption|].
  exact (seek_pack_seek_unpack_roundtrip p u s 4 H1 H2 H3 H4 H5).
Defined.

(** X10: the buffer carries no type information.  Bytes packed as one
    raw-copied kind unpack as any other raw-copied kind of the same total
    width (one int as four chars, two doubles as one double complex):
    the unpack returns exactly the bytes that were packed. *)
Theorem raw_kinds_are_interchangeable
    (k k' : raw_kind) (data out : list byte) (n n' : Z) (s : FixedSizedStream) (i : Z) :
  0 <= n -> 0 <= n' ->
  width k' * n' = width k * n ->
  Z.of_nat (length data) = width k * n ->
  Z.of_nat (length out) = width k * n ->
  buffer_ok s ->
  0 <= i -> i + width k * n <= d_buffer_size s ->
  exists s1 s2,
    exec_call (PackRaw k data n) (setCurrentIndex i s) = Returned (ByteArray data) s1 /\
    exec_call (UnpackRaw k' out n') (setCurrentIndex i s1) = Returned (ByteArray data) s2.
Proof.
  intros Hn Hn' Hw Hd Ho Hok Hi Hfit.
  destruct (pack_then_unpack_at (PackRaw k data n) (PackRaw k' data n')
              (UnpackRaw k' out n') s i)
    as (s1 & s2 & E1 & E2 & _); simpl; auto; try lia.
  - repeat split; lia.
  - exists s1, s2. auto.
Qed.

Lemma raw_kinds_are_interchangeable_witness :
  let s := mkStream 8 0 0 (replicate 8 x00) in
  (0 <= 1 /\ 0 <= 4 /\ width KChar * 4 = width KInt * 1 /\
   Z.of_nat (length (int_repr 42)) = width KInt * 1 /\
   Z.of_nat (length (replicate 4 xff)) = width KInt * 1 /\
   buffer_ok s /\ 0 <= 2 /\ 2 + width KInt * 1 <= d_buffer_size s) /\
  exists s1 s2,
    exec_call (PackRaw KInt (int_repr 42) 1) (setCurrentIndex 2 s)
    = Returned (ByteArray (int_repr 42)) s1 /\
    exec_call (UnpackRaw KChar (replicate 4 xff) 4) (setCurrentIndex 2 s1)
    = Returned (ByteArray (int_repr 42)) s2.
Proof.
  intros s.
  assert (0 <= 1) as H1 by discriminate.
  assert (0 <= 4) as H2 by discriminate.
  assert (width KChar * 4 = width KInt * 1) as H3 by reflexivity.
  assert (Z.of_nat (length (int_repr 42)) = width KInt * 1) as H4 by reflexivity.
  assert (Z.of_nat (length (replicate 4 xff)) = width KInt * 1) as H5 by reflexivity.
  assert (buffer_ok s) as H6 by (split; vm_compute; [reflexivity|discriminate]).
  assert (0 <= 2) as H7 by discriminate.
  assert (2 + width KInt * 1 <= d_buffer_size s) as H8 by (vm_compute; discriminate).
  split; [repeat split; assumption|].
  exact (raw_kinds_are_interchangeable KInt KChar (int_repr 42) (replicate 4 xff) 1 4 s 2
           H1 H2 H3 H4 H5 H6 H7 H8).
Defined.

Lemma map_outcome_returned {A B} (f : A -> B) (o : outcome A) (b : B) s :
  map_outcome f o = Returned b s -> exists a, o = Returned a s /\ f a = b.
Proof. destruct o as [a s0|a s0|e a s0]; simpl; intros [= <- <-]; eauto. Qed.

Lemma raw_value_roundtrip k (data out : list byte) s i :
  Z.of_nat (length data) = width k ->
  Z.of_nat (length out) = width k ->
  buffer_ok s ->
  0 <= i -> i + width k <= d_buffer_size s ->
  exists s1 s2,
    pack_raw k data 1 (setCurrentIndex i s) = Returned data s1 /\
    unpack_raw k out 1 (setCurrentIndex i s1) = Returned data s2.
Proof.
  intros Hd Ho Hok Hi Hfit.
  assert (pack_of (PackRaw k data 1)) as Hp by (unfold pack_of; lia).
  assert (mirrors (PackRaw k data 1) (UnpackRaw k out 1)) as Hu
    by (unfold mirrors; repeat split; lia).
  destruct (pack_then_unpack_at (PackRaw k data 1) (PackRaw k data 1)
              (UnpackRaw k out 1) s i Hp Hp Hu eq_refl Hok Hi)
    as (s1 & s2 & E1 & E2 & _); [unfold wire; lia|].
  cbn [exec_call] in E1, E2.
  apply map_outcome_returned in E1 as (a1 & E1 & [= ->]).
  apply map_outcome_returned in E2 as (a2 & E2 & [= ->]).
  exists s1, s2. auto.
Qed.

(** X11: the stream operators.  For each of the six kinds, [stream << v]
    at an offset with room for one element returns, and [stream >> out]
    from the same offset returns v: the same boolean, the same bytes for
    a char, an int, a float, a double and a double complex. *)
Theorem stream_operators_roundtrip (s : FixedSizedStream) (i : Z) :
  buffer_ok s ->
  0 <= i ->
  (forall b old,
     i + 1 <= d_buffer_size s ->
     exists s1 s2,
       operator_shl_bool b (setCurrentIndex i s) = Returned [b] s1 /\
       operator_shr_bool old (setCurrentIndex i s1) = Returned [b] s2) /\
  (forall data out : list byte,
     length data = 1%nat -> length out = 1%nat -> i + 1 <= d_buffer_size s ->
     exists s1 s2,
       operator_shl_char data (setCurrentIndex i s) = Returned data s1 /\
       operator_shr_char out (setCurrentIndex i s1) = Returned data s2) /\
  (forall data out : list byte,
     length data = 4%nat -> length out = 4%nat -> i + 4 <= d_buffer_size s ->
     exists s1 s2,
       operator_shl_int data (setCurrentIndex i s) = Returned data s1 /\
       operator_shr_int out (setCurrentIndex i s1) = Returned data s2) /\
  (forall data out : list byte,
     length data = 4%nat -> length out = 4%nat -> i + 4 <= d_buffer_size s ->
     exists s1 s2,
       operator_shl_float data (setCurrentIndex i s) = Returned data s1 /\
       operator_shr_float out (setCurrentIndex i s1) = Returned data s2) /\
  (forall data out : list byte,
     length data = 8%nat -> length out = 8%nat -> i + 8 <= d_buffer_size s ->
     exists s1 s2,
       operator_shl_double data (setCurrentIndex i s) = Returned data s1 /\
       operator_shr_double out (setCurrentIndex i s1) = Returned data s2) /\
  (forall data out : list byte,
     length data = 16%nat -> length out = 16%nat -> i + 16 <= d_buffer_size s ->
     exists s1 s2,
       operator_shl_dcomplex data (setCurrentIndex i s) = Returned data s1 /\
       operator_shr_dcomplex out (setCurrentIndex i s1) = Returned data s2).
Proof.
  intros Hok Hi. split; [|repeat split].
  - intros b old Hfit.
    assert (pack_of (PackBool [b] 1)) as Hp by reflexivity.
    assert (mirrors (PackBool [b] 1) (UnpackBool [old] 1)) as Hu by (split; reflexivity).
    destruct (pack_then_unpack_at (PackBool [b] 1) (PackBool [b] 1)
                (UnpackBool [old] 1) s i Hp Hp Hu eq_refl Hok Hi)
      as (s1 & s2 & E1 & E2 & _); [simpl; lia|].
    cbn [exec_call] in E1, E2.
    apply map_outcome_returned in E1 as (a1 & E1 & [= ->]).
    apply map_outcome_returned in E2 as (a2 & E2 & [= ->]).
    exists s1, s2. auto.
  - intros data out Hd Ho Hfit.
    apply (raw_value_roundtrip KChar data out s i); auto; rewrite ?Hd, ?Ho; try reflexivity; exact Hfit.
  - intros data out Hd Ho Hfit.
    apply (raw_value_roundtrip KInt data out s i); auto; rewrite ?Hd, ?Ho; try reflexivity; exact Hfit.
  - intros data out Hd Ho Hfit.
    apply (raw_value_roundtrip KFloat data out s i); auto; rewrite ?Hd, ?Ho; try reflexivity; exact Hfit.
  - intros data out Hd Ho Hfit.
    apply (raw_value_roundtrip KDouble data out s i); auto; rewrite ?Hd, ?Ho; try reflexivity; exact Hfit.
  - intros data out Hd Ho Hfit.
    apply (raw_value_roundtrip KDComplex data out s i); auto; rewrite ?Hd, ?Ho; try reflexivity; exact Hfit.
Qed.

Lemma stream_operators_roundtrip_witness :
  let s := mkStream 16 0 0 (replicate 16 xff) in
  (buffer_ok s /\ 0 <= 3 /\ 3 + 8 <= d_buffer_size s) /\
  exists s1 s2,
    operator_shl_double (double_repr double_3_14) (setCurrentIndex 3 s)
    = Returned (double_repr double_3_14) s1 /\
    operator_shr_double (double_repr 0) (setCurrentIndex 3 s1)
    = Returned (double_repr double_3_14) s2.
Proof.
  intros s.
  assert (buffer_ok s) as H1 by (split; vm_compute; [reflexivity|discriminate]).
  assert (0 <= 3) as H2 by discriminate.
  assert (3 + 8 <= d_buffer_size s) as H3 by (vm_compute; discriminate).
  split; [repeat split; assumption|].
  exact (proj1 (proj2 (proj2 (proj2 (proj2 (stream_operators_roundtrip s 3 H1 H2)))))
           (double_repr double_3_14) (double_repr 0) eq_refl eq_refl H3).
Defined.

(** ** The layout of a packed sequence *)

Lemma exec_call_mark c s a s' :
  exec_call c s = Returned a s' ->
  d_current_size s' = Z.max (d_current_size s) (d_buffer_index s').
Proof.
  intros E. destruct (exec_call_advance c s) as ((_ & Hhw & Hix) & _).
  rewrite E in Hhw, Hix. simpl in Hhw, Hix. now rewrite Hhw, Hix.
Qed.

Lemma pack_calls_segment_mark (ps : list call) :
  forall s (pre mid post : list byte),
    Forall pack_of ps ->
    d_buffer s = pre ++ mid ++ post ->
    d_buffer_index s = Z.of_nat (length pre) ->
    Z.of_nat (length mid) = wire_size ps ->
    Z.of_nat (length pre) + wire_size ps <= d_buffer_size s ->
    d_buffer_size s <= CInt.INT_MAX ->
    d_buffer_index s <= d_current_size s ->
    exists s',
      exec_calls ps s = Returned (argument <$> ps) s' /\
      d_buffer s' = pre ++ concat (wire <$> ps) ++ post /\
      d_buffer_index s' = d_buffer_index s + wire_size ps /\
      d_current_size s' = Z.max (d_current_size s) (d_buffer_index s + wire_size ps).
Proof.
  unfold wire_size.
  induction ps as [|p ps IH]; intros s pre mid post Hps Hbuf Hix Hmid Hroom Hmax Hhw.
  - simpl in *. destruct mid; [|discriminate].
    exists s. repeat split; [assumption|lia|lia].
  - pose proof (Forall_inv Hps) as Hp. apply Forall_inv_tail in Hps.
    rewrite wire_cons, length_app in Hmid, Hroom.
    rewrite <- (take_drop (length (wire p)) mid) in Hbuf.
    rewrite <- app_assoc in Hbuf.
    destruct (pack_call_segment p s pre (take (length (wire p)) mid)
                (drop (length (wire p)) mid ++ post) Hp Hbuf Hix)
      as (s1 & E1 & Hbuf1 & Hix1 & Hsz1); [rewrite length_take; lia|lia|lia|].
    pose proof (exec_call_mark p s _ s1 E1) as Hhw1.
    rewrite (app_assoc pre) in Hbuf1.
    destruct (IH s1 (pre ++ wire p) (drop (length (wire p)) mid) post Hps Hbuf1)
      as (s2 & E2 & Hbuf2 & Hix2 & Hhw2);
      [rewrite length_app; lia|rewrite length_drop; lia
      |rewrite length_app; lia|lia|lia|].
    exists s2. cbn [exec_calls]. rewrite E1, E2.
    split; [reflexivity|]. split; [|split].
    + rewrite Hbuf2, wire_cons. now rewrite <- !app_assoc.
    + rewrite wire_cons, length_app. lia.
    + rewrite wire_cons, length_app. lia.
Qed.

(** X12: the encoded form is flat.  After a sequence of packs on a fresh
    stream (cursor 0, size 0) that holds them all, getCurrentSize() is
    the total number of packed bytes and the first getCurrentSize() bytes
    from getBufferStart() are the arrays' bytes one after the other, in
    call order, with nothing in between; the rest of the buffer is what
    it was. *)
Theorem packed_sequence_is_flat (ps : list call) (s : FixedSizedStream) :
  buffer_ok s ->
  d_buffer_index s = 0 ->
  d_current_size s = 0 ->
  Forall pack_of ps ->
  wire_size ps <= d_buffer_size s ->
  exists s',
    exec_calls ps s = Returned (argument <$> ps) s' /\
    getCurrentIndex s' = wire_size ps /\
    getCurrentSize s' = wire_size ps /\
    take (Z.to_nat (getCurrentSize s')) (getBufferStart s') = concat (wire <$> ps) /\
    drop (Z.to_nat (getCurrentSize s')) (getBufferStart s')
    = drop (Z.to_nat (wire_size ps)) (d_buffer s).
Proof.
  intros [Hlen Hmax] Hix Hhw Hps Hroom.
  assert (0 <= wire_size ps) as Hpos by (unfold wire_size; lia).
  destruct (pack_calls_segment_mark ps s [] (take (Z.to_nat (wire_size ps)) (d_buffer s))
              (drop (Z.to_nat (wire_size ps)) (d_buffer s)) Hps)
    as (s' & E & Hbuf & Hix' & Hhw');
    [simpl; now rewrite take_drop|assumption|rewrite length_take; lia
    |simpl; lia|assumption|lia|].
  exists s'. unfold getCurrentIndex, getCurrentSize, getBufferStart.
  assert (d_current_size s' = wire_size ps) as -> by lia.
  assert (d_buffer_index s' = wire_size ps) as -> by lia.
  rewrite Hbuf. simpl.
  split; [exact E|]. split; [reflexivity|]. split; [reflexivity|].
  unfold wire_size. rewrite Nat2Z.id.
  now rewrite take_app_length, drop_app_length.
Qed.

Lemma packed_sequence_is_flat_witness :
  let s := mkStream 16 0 0 (replicate 16 xff) in
  let ps := [PackRaw KInt (int_repr 42) 1; PackBool [true; false] 2;
             PackRaw KDouble (double_repr double_3_14) 1] in
  (buffer_ok s /\ d_buffer_index s = 0 /\ d_current_size s = 0 /\
   Forall pack_of ps /\ wire_size ps <= d_buffer_size s) /\
  exists s',
    exec_calls ps s = Returned (argument <$> ps) s' /\
    getCurrentIndex s' = wire_size ps /\
    getCurrentSize s' = wire_size ps /\
    take (Z.to_nat (getCurrentSize s')) (getBufferStart s') = concat (wire <$> ps) /\
    drop (Z.to_nat (getCurrentSize s')) (getBufferStart s')
    = drop (Z.to_nat (wire_size ps)) (d_buffer s).
Proof.
  intros s ps.
  assert (buffer_ok s) as H1 by (split; vm_compute; [reflexivity|discriminate]).
  assert (d_buffer_index s = 0) as H2 by reflexivity.
  assert (d_current_size s = 0) as H3 by reflexivity.
  assert (Forall pack_of ps) as H4 by (repeat constructor; vm_compute; discriminate).
  assert (wire_size ps <= d_buffer_size s) as H5 by (vm_compute; discriminate).
  split; [repeat split; assumption|].
  exact (packed_sequence_is_flat ps s H1 H2 H3 H4 H5).
Defined.

Lemma stream_fields_eq (s t : FixedSizedStream) :
  d_buffer_size s = d_buffer_size t ->
  d_current_size s = d_current_size t ->
  d_buffer_index s = d_buffer_index t ->
  d_buffer s = d_buffer t ->
  s = t.
Proof. destruct s, t; simpl; congruence. Qed.

(** X13: packs compose.  One pack call leaves exactly the stream (buffer,
    cursor, high-water mark) that two pack calls leave when their arrays,
    one after the other, have the same bytes: an array of n + m elements
    against its first n and its last m, or one int against its four
    bytes packed as chars. *)
Theorem one_pack_equals_two (p p1 p2 : call) (s : FixedSizedStream) :
  pack_of p -> pack_of p1 -> pack_of p2 ->
  wire p = wire p1 ++ wire p2 ->
  buffer_ok s ->
  0 <= d_buffer_index s ->
  d_buffer_index s + Z.of_nat (length (wire p)) <= d_buffer_size s ->
  exists s',
    exec_call p s = Returned (argument p) s' /\
    exec_calls [p1; p2] s = Returned [argument p1; argument p2] s'.
Proof.
  intros Hp Hp1 Hp2 Hw [Hlen Hmax] Hix Hfit.
  pose proof (f_equal length Hw) as Hwl. rewrite length_app in Hwl.
  destruct (split_at_cursor (d_buffer s) (d_buffer_index s) (Z.of_nat (length (wire p))))
    as (pre & mid & post & Hbuf & Hpre & Hmid); [lia|lia|lia|].
  destruct (pack_call_segment p s pre mid post Hp Hbuf)
    as (s' & E & Hbuf' & Hix' & Hsz'); [lia|lia|lia|lia|].
  pose proof (exec_call_mark p s _ s' E) as Hhw'.
  pose proof Hbuf as Hbuf0.
  rewrite <- (take_drop (length (wire p1)) mid), <- app_assoc in Hbuf0.
  destruct (pack_call_segment p1 s pre (take (length (wire p1)) mid)
              (drop (length (wire p1)) mid ++ post) Hp1 Hbuf0)
    as (s1 & E1 & Hbuf1 & Hix1 & Hsz1); [lia|rewrite length_take; lia|lia|lia|].
  pose proof (exec_call_mark p1 s _ s1 E1) as Hhw1.
  rewrite (app_assoc pre) in Hbuf1.
  destruct (pack_call_segment p2 s1 (pre ++ wire p1) (drop (length (wire p1)) mid) post
              Hp2 Hbuf1)
    as (s2 & E2 & Hbuf2 & Hix2 & Hsz2);
    [rewrite length_app; lia|rewrite length_drop; lia|rewrite length_app; lia|lia|].
  pose proof (exec_call_mark p2 s1 _ s2 E2) as Hhw2.
  assert (s2 = s') as ->.
  { apply stream_fields_eq; [lia|lia|lia|].
    rewrite Hbuf2, Hbuf', Hw. now rewrite <- !app_assoc. }
  exists s'. split; [exact E|].
  cbn [exec_calls]. rewrite E1. cbn [map_outcome]. now rewrite E2.
Qed.

Lemma one_pack_equals_two_witness :
  let s := mkStream 8 2 2 (replicate 8 xff) in
  let p := PackRaw KInt (int_repr 42) 1 in
  let p1 := PackRaw KChar (take 1 (int_repr 42)) 1 in
  let p2 := PackRaw KChar (drop 1 (int_repr 42)) 3 in
  (pack_of p /\ pack_of p1 /\ pack_of p2 /\ wire p = wire p1 ++ wire p2 /\
   buffer_ok s /\ 0 <= d_buffer_index s /\
   d_buffer_index s + Z.of_nat (length (wire p)) <= d_buffer_size s) /\
  exists s',
    exec_call p s = Returned (argument p) s' /\
    exec_calls [p1; p2] s = Returned [argument p1; argument p2] s'.
Proof.
  intros s p p1 p2.
  assert (pack_of p) as H1 by (split; vm_compute; [discriminate|reflexivity]).
  assert (pack_of p1) as H2 by (split; vm_compute; [discriminate|reflexivity]).
  assert (pack_of p2) as H3 by (split; vm_compute; [discriminate|reflexivity]).
  assert (wire p = wire p1 ++ wire p2) as H4 by reflexivity.
  assert (buffer_ok s) as H5 by (split; vm_compute; [reflexivity|discriminate]).
  assert (0 <= d_buffer_index s) as H6 by (vm_compute; discriminate).
  assert (d_buffer_index s + Z.of_nat (length (wire p)) <= d_buffer_size s) as H7
    by (vm_compute; discriminate).
  split; [repeat split; assumption|].
  exact (one_pack_equals_two p p1 p2 s H1 H2 H3 H4 H5 H6 H7).
Defined.

(** ** What a raw copy moves *)

(** X14: a raw-copied pack or unpack that fits moves exactly width x n
    bytes.  The pack puts the first width x n bytes of the caller's array
    at the old cursor (a longer array is not read further); the unpack
    replaces the first width x n bytes of the caller's array by the
    buffer's bytes at the old cursor and leaves the rest of the array as
    it was.  The unpack does this for any bytes within the capacity,
    packed before or not. *)
Theorem raw_copy_moves_exactly_the_requested_bytes
    (k : raw_kind) (data : list byte) (n : Z) (s : FixedSizedStream) :
  0 <= n ->
  width k * n <= Z.of_nat (length data) ->
  buffer_ok s ->
  0 <= d_buffer_index s ->
  d_buffer_index s + width k * n <= d_buffer_size s ->
  (exists s',
     pack_raw k data n s = Returned data s' /\
     slice (d_buffer s') (d_buffer_index s) (width k * n)
     = take (Z.to_nat (width k * n)) data) /\
  unpack_raw k data n s
  = Returned (slice (d_buffer s) (d_buffer_index s) (width k * n)
                ++ drop (Z.to_nat (width k * n)) data)
      (advanced (width k * n) s).
Proof.
  intros Hn Hd [Hlen Hmax] Hix Hfit.
  assert (0 <= width k * n <= CInt.INT_MAX) as Hw
    by (pose proof (width_pos k); nia).
  destruct (to_unsigned_small _ Hw) as [Eu Eo].
  destruct (split_at_cursor (d_buffer s) (d_buffer_index s) (width k * n))
    as (pre & mid & post & Hbuf & Hpre & Hmid); [lia|lia|lia|].
  rewrite pack_raw_unfold, unpack_raw_unfold. unfold __pack, __unpack.
  rewrite Eu, Eo, advance_within by lia. simpl.
  rewrite !range_inside_true by lia. simpl. split.
  - eexists. split; [reflexivity|]. simpl.
    rewrite Hbuf, (memcpy_segment pre mid post data) by lia.
    rewrite (slice_segment pre (take (length mid) data) post);
      [f_equal; lia|lia|rewrite length_take; lia].
  - do 2 f_equal.
    rewrite Hbuf, (slice_segment pre mid post) by lia.
    unfold memcpy. simpl. rewrite Z.add_0_l.
    now rewrite take_ge by lia.
Qed.

Lemma raw_copy_moves_exactly_the_requested_bytes_witness :
  let s := mkStream 8 0 0 (int_repr 5 ++ int_repr 6) in
  let data := int_repr 1 ++ int_repr 2 in
  (0 <= 1 /\ width KInt * 1 <= Z.of_nat (length data) /\ buffer_ok s /\
   0 <= d_buffer_index s /\ d_buffer_index s + width KInt * 1 <= d_buffer_size s) /\
  (exists s',
     pack_raw KInt data 1 s = Returned data s' /\
     slice (d_buffer s') (d_buffer_index s) (width KInt * 1)
     = take (Z.to_nat (width KInt * 1)) data) /\
  unpack_raw KInt data 1 s
  = Returned (slice (d_buffer s) (d_buffer_index s) (width KInt * 1)
                ++ drop (Z.to_nat (width KInt * 1)) data)
      (advanced (width KInt * 1) s).
Proof.
  intros s data.
  assert (0 <= 1) as H1 by discriminate.
  assert (width KInt * 1 <= Z.of_nat (length data)) as H2 by (vm_compute; discriminate).
  assert (buffer_ok s) as H3 by (split; vm_compute; [reflexivity|discriminate]).
  assert (0 <= d_buffer_index s) as H4 by (vm_compute; discriminate).
  assert (d_buffer_index s + width KInt * 1 <= d_buffer_size s) as H5
    by (vm_compute; discriminate).
  split; [repeat split; assumption|].
  exact (raw_copy_moves_exactly_the_requested_bytes KInt data 1 s H1 H2 H3 H4 H5).
Defined.

(** ** The high-water mark, exactly *)

Lemma foldr_max_raise (l : list Z) : forall a b,
  foldr Z.max (Z.max a b) l = Z.max b (foldr Z.max a l).
Proof.
  induction l as [|x l IH]; intros a b; simpl; [lia|].
  rewrite IH. lia.
Qed.

(** X15: after any run of packs, unpacks, setCurrentIndex and resetIndex
    from any stream, getCurrentSize() is the largest of its starting
    value and the cursors left by the packs and unpacks of the run.  The
    positions given to setCurrentIndex do not enter: a forward seek shows
    in the size only once a pack or unpack has advanced from it. *)
Theorem size_is_max_of_advanced_cursors (ops : list op) : forall s,
  getCurrentSize (final ops s) = foldr Z.max (getCurrentSize s) (call_cursors ops s).
Proof.
  unfold getCurrentSize.
  induction ops as [|o ops IH]; intros s; [reflexivity|].
  rewrite final_cons. cbn [call_cursors].
  assert (d_current_size (stream_of (exec_op o s))
          = foldr Z.max (d_current_size s)
              match o with Call _ => [d_buffer_index (stream_of (exec_op o s))] | _ => [] end)
    as Hstep.
  { destruct o as [c|index|]; [|reflexivity|reflexivity].
    cbn [exec_op]. rewrite stream_of_map.
    destruct (exec_call_advance c s) as ((_ & Hhw & Hix) & _).
    rewrite Hhw, Hix. unfold advanced. cbn [foldr d_current_size d_buffer_index]. lia. }
  rewrite foldr_app.
  destruct (is_returned (exec_op o s)).
  - rewrite IH, Hstep.
    destruct o as [c|index|]; [|reflexivity|reflexivity].
    cbn [foldr]. rewrite (Z.max_comm _ (d_current_size s)).
    apply foldr_max_raise.
  - simpl. rewrite Hstep. reflexivity.
Qed.

(** ** When a call raises the error, and when it returns *)




